(** * Receipt processor: validation, scoring and the in-memory store

    A shallow embedding of [solution.go].  Go strings are byte strings
    ([string], a list of 8-bit [ascii]); Go's [int] is the 64-bit signed
    integer of the usual targets, written as [Z] with its wrap-around;
    [float64] is IEEE 754 binary64, written with the exact operations of
    [SpecFloat]; the two global maps are finite maps keyed by strings. *)

From Stdlib Require Import ZArith List Ascii String Lia Bool Btauto.
From Stdlib Require Import Floats.SpecFloat.
From stdpp Require Import gmap strings relations.
Import ListNotations.
Open Scope Z_scope.

(** ** Machine integers *)

Module GoInt.

(** [int] on a 64-bit target: two's complement, silent wrap-around. *)
Definition intSize : Z := 64.
Definition minInt : Z := - 2 ^ 63.
Definition maxInt : Z := 2 ^ 63 - 1.
Definition maxUint64 : Z := 2 ^ 64 - 1.

Definition wrap (z : Z) : Z := (z + 2 ^ 63) mod 2 ^ 64 - 2 ^ 63.

Definition in_range (z : Z) : Prop := minInt <= z <= maxInt.

Definition add (a b : Z) : Z := wrap (a + b).
Definition mul (a b : Z) : Z := wrap (a * b).
(** [/] and [%] truncate toward zero. *)
Definition quot (a b : Z) : Z := wrap (Z.quot a b).
Definition rem (a b : Z) : Z := Z.rem a b.

(** [len(x)] as an [int]. *)
Definition len {A} (l : list A) : Z := Z.of_nat (length l).

End GoInt.

(** ** Bytes and strings *)

Module Bytes.

Definition code (c : ascii) : Z := Z.of_N (N_of_ascii c).

Definition between (lo hi : Z) (c : ascii) : bool :=
  (lo <=? code c) && (code c <=? hi).

Definition isByte (k : Z) (c : ascii) : bool := code c =? k.

(** ['0'..'9'], ['a'..'z'], ['A'..'Z'] *)
Definition isDigit : ascii -> bool := between 48 57.
Definition isLower : ascii -> bool := between 97 122.
Definition isUpper : ascii -> bool := between 65 90.

(** strconv's [lower]: [c | ('x' - 'X')]. *)
Definition lower (c : ascii) : ascii :=
  ascii_of_N (N.lor (N_of_ascii c) 32).

Definition bytes (s : string) : list ascii := list_ascii_of_string s.
Definition str (l : list ascii) : string := string_of_list_ascii l.

(** [len(s)] of a string: its number of bytes. *)
Definition len (s : string) : Z := Z.of_nat (String.length s).

Fixpoint hasPrefix (p s : list ascii) : option (list ascii) :=
  match p, s with
  | [], _ => Some s
  | a :: p', b :: s' => if Ascii.eqb a b then hasPrefix p' s' else None
  | _ :: _, [] => None
  end.

End Bytes.

(** ** Package [strings] *)

Module Strings.
Import Bytes.

(** [strings.Split(s, sep)] for a separator of one byte, which is how
    the program calls it (["-"] and [":"]): the pieces between the
    occurrences of the separator, one more than there are occurrences. *)
Fixpoint splitBytes (sep : ascii) (s : list ascii) : list (list ascii) :=
  match s with
  | [] => [[]]
  | c :: s' =>
      if Ascii.eqb c sep then [] :: splitBytes sep s'
      else match splitBytes sep s' with
           | [] => [[c]]
           | p :: ps => (c :: p) :: ps
           end
  end.

Definition Split (s : string) (sep : ascii) : list string :=
  map str (splitBytes sep (bytes s)).

(** White space as [unicode.IsSpace] sees it, in its UTF-8 encoding:
    the six ASCII bytes [\t \n \v \f \r] and space, U+0085 and U+00A0,
    U+1680, U+2000..U+200A, U+2028, U+2029, U+202F, U+205F, U+3000.
    The result is the number of bytes of the white space the string
    starts with, 0 when it starts with none. *)
Definition asciiSpace (c : ascii) : bool :=
  between 9 13 c || isByte 32 c.

Definition leadingSpace (s : list ascii) : nat :=
  match s with
  | c :: r =>
      if asciiSpace c then 1%nat
      else if isByte 194 c then
        match r with
        | d :: _ => if isByte 133 d || isByte 160 d then 2%nat else 0%nat
        | _ => 0%nat
        end
      else if isByte 225 c then
        match r with
        | d :: e :: _ => if isByte 154 d && isByte 128 e then 3%nat else 0%nat
        | _ => 0%nat
        end
      else if isByte 226 c then
        match r with
        | d :: e :: _ =>
            if isByte 128 d && (between 128 138 e || isByte 168 e || isByte 169 e || isByte 175 e)
            then 3%nat
            else if isByte 129 d && isByte 159 e then 3%nat else 0%nat
        | _ => 0%nat
        end
      else if isByte 227 c then
        match r with
        | d :: e :: _ => if isByte 128 d && isByte 128 e then 3%nat else 0%nat
        | _ => 0%nat
        end
      else 0%nat
  | [] => 0%nat
  end.

(** The same looking from the end: the argument is the string reversed,
    so an encoding shows up with its bytes in reverse order. *)
Definition trailingSpace (r : list ascii) : nat :=
  match r with
  | c :: r1 =>
      if asciiSpace c then 1%nat
      else
        match r1 with
        | d :: r2 =>
            if isByte 194 d && (isByte 133 c || isByte 160 c) then 2%nat
            else
              match r2 with
              | e :: _ =>
                  if Nat.eqb (leadingSpace [e; d; c]) 3 then 3%nat else 0%nat
              | [] => 0%nat
              end
        | [] => 0%nat
        end
  | [] => 0%nat
  end.

(** [TrimLeftFunc(s, unicode.IsSpace)]: drop white space until a rune
    that is none.  The fuel is the length of the string, which bounds
    the number of runes. *)
Fixpoint trimLeft (fuel : nat) (s : list ascii) : list ascii :=
  match fuel with
  | O => s
  | S fuel' =>
      match leadingSpace s with
      | O => s
      | n => trimLeft fuel' (skipn n s)
      end
  end.

Fixpoint trimRightRev (fuel : nat) (r : list ascii) : list ascii :=
  match fuel with
  | O => r
  | S fuel' =>
      match trailingSpace r with
      | O => r
      | n => trimRightRev fuel' (skipn n r)
      end
  end.

Definition trimRight (s : list ascii) : list ascii :=
  rev (trimRightRev (length s) (rev s)).

(** [strings.TrimSpace(s)] *)
Definition TrimSpace (s : string) : string :=
  let b := bytes s in
  str (trimRight (trimLeft (length b) b)).

End Strings.

(** ** Package [strconv] *)

Module Strconv.
Import Bytes.

(** The [Err] of a [*NumError]. *)
Inductive NumError := ErrSyntax | ErrRange.

Definition digitVal (c : ascii) : Z := code c - 48.

(** *** [ParseUint(s, 10, 64)], [ParseInt(s, 10, 0)] and [Atoi] *)

(** The smallest number such that [cutoff * 10 > maxUint64]. *)
Definition cutoff10 : Z := Z.quot GoInt.maxUint64 10 + 1.

(** The digit loop of [ParseUint]: it stops at the first byte that is
    no digit, and at the first digit that overflows, whatever follows. *)
Fixpoint parseUintLoop (s : list ascii) (n : Z) : Z * option NumError :=
  match s with
  | [] => (n, None)
  | c :: s' =>
      if negb (isDigit c) then (0, Some ErrSyntax)
      else if cutoff10 <=? n then (GoInt.maxUint64, Some ErrRange)
      else
        let n1 := n * 10 + digitVal c in
        if GoInt.maxUint64 <? n1 then (GoInt.maxUint64, Some ErrRange)
        else parseUintLoop s' n1
  end.

Definition ParseUint (s : list ascii) : Z * option NumError :=
  match s with
  | [] => (0, Some ErrSyntax)
  | _ => parseUintLoop s 0
  end.

Definition ParseInt (s : list ascii) : Z * option NumError :=
  match s with
  | [] => (0, Some ErrSyntax)
  | c :: r =>
      let neg := isByte 45 c in
      let s1 := if isByte 43 c || isByte 45 c then r else s in
      match ParseUint s1 with
      | (_, Some ErrSyntax) => (0, Some ErrSyntax)
      | (un, _) =>
          let cutoff := 2 ^ (GoInt.intSize - 1) in
          if negb neg && (cutoff <=? un) then (cutoff - 1, Some ErrRange)
          else if neg && (cutoff <? un) then (- cutoff, Some ErrRange)
          else (if neg then - un else un, None)
      end
  end.

(** The fast path of [Atoi], taken by strings of 1 to 18 bytes. *)
Fixpoint atoiFast (s : list ascii) (n : Z) : option Z :=
  match s with
  | [] => Some n
  | c :: s' =>
      if isDigit c then atoiFast s' (n * 10 + digitVal c) else None
  end.

Definition Atoi (str : string) : Z * option NumError :=
  let s := bytes str in
  let sLen := GoInt.len s in
  if (0 <? sLen) && (sLen <? 19) then
    match s with
    | [] => (0, Some ErrSyntax)
    | c :: r =>
        let signed := isByte 45 c || isByte 43 c in
        let s1 := if signed then r else s in
        if signed && (GoInt.len s1 <? 1) then (0, Some ErrSyntax)
        else
          match atoiFast s1 0 with
          | None => (0, Some ErrSyntax)
          | Some n => (if isByte 45 c then - n else n, None)
          end
    end
  else ParseInt s.

(** *** [float64] *)

Definition float64 := spec_float.
Definition prec : Z := 53.
Definition emax : Z := 1024.

Definition NaN : float64 := S754_nan.
Definition Inf (neg : bool) : float64 := S754_infinity neg.

(** The binary64 nearest to the quotient [n / d], ties to even, with
    the sign [neg]: the value a decimal literal or a decimal string
    denotes. *)
Definition nearest (neg : bool) (n : Z) (d : positive) : float64 :=
  match n with
  | Zpos _ =>
      let '(q, e, l) := SFdiv_core_binary prec emax n 0 (Zpos d) 0 in
      binary_round_aux prec emax neg q e l
  | _ => S754_zero neg
  end.

(** *** [ParseFloat(s, 64)]

    The syntax is that of [special] and [readFloat]: the words [inf],
    [infinity] and [nan] in any case, decimal numbers with an optional
    fraction and exponent, hexadecimal numbers with a binary exponent,
    underscores between digits.  The value is the one the documentation
    promises: the nearest floating-point number, rounded to even, and
    an infinity with [ErrRange] when that is out of range. *)

Fixpoint commonPrefixLenIgnoreCase (s prefix : list ascii) : nat :=
  match s, prefix with
  | c :: s', p :: prefix' =>
      let c' := if isUpper c then ascii_of_N (N_of_ascii c + 32) else c in
      if Ascii.eqb c' p then S (commonPrefixLenIgnoreCase s' prefix') else O
  | _, _ => O
  end.

Definition infinityLen (s : list ascii) : option nat :=
  let n := commonPrefixLenIgnoreCase s (bytes "infinity") in
  let n := if (3 <? n)%nat && (n <? 8)%nat then 3%nat else n in
  if (n =? 3)%nat || (n =? 8)%nat then Some n else None.

(** The value and the number of bytes it takes, when the string starts
    with a special word. *)
Definition special (s : list ascii) : option (float64 * nat) :=
  match s with
  | [] => None
  | c :: r =>
      if isByte 43 c || isByte 45 c then
        match infinityLen r with
        | Some n => Some (Inf (isByte 45 c), S n)
        | None => None
        end
      else if isByte 105 c || isByte 73 c then
        match infinityLen s with
        | Some n => Some (Inf false, n)
        | None => None
        end
      else if isByte 110 c || isByte 78 c then
        if (commonPrefixLenIgnoreCase s (bytes "nan") =? 3)%nat
        then Some (NaN, 3%nat) else None
      else None
  end.

Definition isHexLetter (c : ascii) : bool := between 97 102 (lower c).

(** What the digit loop of [readFloat] has seen. *)
Record mantissa := {
  mant : Z;            (* the digits read as one number *)
  fracDigits : Z;      (* how many of them after the point *)
  sawdot : bool;
  sawdigits : bool
}.

Fixpoint readDigits (hex : bool) (s : list ascii) (st : mantissa)
  : mantissa * list ascii :=
  match s with
  | [] => (st, [])
  | c :: s' =>
      if isByte 95 c then readDigits hex s' st
      else if isByte 46 c then
        if sawdot st then (st, s)
        else readDigits hex s'
               {| mant := mant st; fracDigits := fracDigits st;
                  sawdot := true; sawdigits := sawdigits st |}
      else if isDigit c || (hex && isHexLetter c) then
        let d := if isDigit c then digitVal c else code (lower c) - 97 + 10 in
        readDigits hex s'
          {| mant := mant st * (if hex then 16 else 10) + d;
             fracDigits := if sawdot st then fracDigits st + 1 else fracDigits st;
             sawdot := sawdot st; sawdigits := true |}
      else (st, s)
  end.

(** The digits of the exponent; once it has reached 10000 further
    digits are read and dropped. *)
Fixpoint readExpDigits (s : list ascii) (e : Z) : Z * list ascii :=
  match s with
  | c :: s' =>
      if isByte 95 c then readExpDigits s' e
      else if isDigit c then
        readExpDigits s' (if e <? 10000 then e * 10 + digitVal c else e)
      else (e, s)
  | [] => (e, [])
  end.

(** The optional exponent, mandatory after hexadecimal digits. *)
Definition readExponent (hex : bool) (s : list ascii)
  : option (Z * list ascii) :=
  let noExponent := if hex then None else Some (0, s) in
  match s with
  | c :: r =>
      if Ascii.eqb (lower c) (if hex then "p"%char else "e"%char) then
        match r with
        | [] => None
        | d :: r' =>
            let esign := if isByte 45 d then -1 else 1 in
            let r1 := if isByte 43 d || isByte 45 d then r' else r in
            match r1 with
            | d1 :: _ =>
                if isDigit d1 then
                  let '(e, rest) := readExpDigits r1 0 in
                  Some (e * esign, rest)
                else None
            | [] => None
            end
        end
      else noExponent
  | [] => noExponent
  end.

Inductive seen := SawStart | SawDigit | SawUnderscore | SawOther.

Fixpoint underscoreLoop (hex : bool) (saw : seen) (s : list ascii) : bool :=
  match s with
  | [] => match saw with SawUnderscore => false | _ => true end
  | c :: s' =>
      if isDigit c || (hex && isHexLetter c) then underscoreLoop hex SawDigit s'
      else if isByte 95 c then
        match saw with
        | SawDigit => underscoreLoop hex SawUnderscore s'
        | _ => false
        end
      else
        match saw with
        | SawUnderscore => false
        | _ => underscoreLoop hex SawOther s'
        end
  end.

Definition stripSign (s : list ascii) : list ascii :=
  match s with
  | c :: r => if isByte 43 c || isByte 45 c then r else s
  | [] => s
  end.

Definition underscoreOK (s : list ascii) : bool :=
  match stripSign s with
  | c0 :: c1 :: r =>
      let l := code (lower c1) in
      if isByte 48 c0 && ((l =? 98) || (l =? 111) || (l =? 120))
      then underscoreLoop (l =? 120) SawDigit r
      else underscoreLoop false SawStart (c0 :: c1 :: r)
  | s1 => underscoreLoop false SawStart s1
  end.

(** A number read to the end of the string. *)
Record number := {
  neg : bool;
  hex : bool;
  digits : Z;          (* the mantissa, an integer *)
  exponent : Z         (* of 10, or of 2 for a hexadecimal number *)
}.

Definition readFloat (s : list ascii) : option number :=
  match s with
  | [] => None
  | c :: _ =>
      let s1 := stripSign s in
      let isHex :=
        match s1 with
        | c0 :: c1 :: _ :: _ => isByte 48 c0 && Ascii.eqb (lower c1) "x"%char
        | _ => false
        end in
      let s2 := if isHex then skipn 2 s1 else s1 in
      let '(st, rest) :=
        readDigits isHex s2
          {| mant := 0; fracDigits := 0; sawdot := false; sawdigits := false |} in
      if negb (sawdigits st) then None
      else
        match readExponent isHex rest with
        | Some (e, []) =>
            if underscoreOK s then
              Some {| neg := isByte 45 c; hex := isHex; digits := mant st;
                      exponent := if isHex then e - 4 * fracDigits st
                                  else e - fracDigits st |}
            else None
        | _ => None
        end
  end.

Definition valueOf (n : number) : float64 :=
  if hex n then
    binary_normalize prec emax (cond_Zopp (neg n) (digits n)) (exponent n) (neg n)
  else if 0 <=? exponent n then
    nearest (neg n) (digits n * 10 ^ exponent n) 1
  else
    nearest (neg n) (digits n) (Z.to_pos (10 ^ (- exponent n))).

Definition ParseFloat (str : string) : float64 * option NumError :=
  let s := bytes str in
  match special s with
  | Some (v, n) =>
      if (n =? length s)%nat then (v, None)
      else (S754_zero false, Some ErrSyntax)
  | None =>
      match readFloat s with
      | None => (S754_zero false, Some ErrSyntax)
      | Some n =>
          match valueOf n with
          | S754_infinity sg => (S754_infinity sg, Some ErrRange)
          | v => (v, None)
          end
      end
  end.

End Strconv.

(** ** Package [math] and the conversion to [int] *)

Module Math.
Import Strconv.

(** The constants of the program, each the binary64 nearest to the
    decimal literal. *)
Definition f0 : float64 := S754_zero false.
Definition f1 : float64 := nearest false 1 1.
Definition f0_25 : float64 := nearest false 25 100.
Definition f0_2 : float64 := nearest false 2 10.

(** [math.Mod(x, y)]: the remainder of [x / y] with the sign of [x],
    computed without rounding.  [Mod(±Inf, y)], [Mod(NaN, y)],
    [Mod(x, 0)] and [Mod(x, NaN)] are NaN; [Mod(x, ±Inf)] is [x]. *)
Definition Mod (x y : float64) : float64 :=
  match x, y with
  | S754_nan, _ | _, S754_nan => NaN
  | S754_infinity _, _ => NaN
  | _, S754_zero _ => NaN
  | _, S754_infinity _ => x
  | S754_zero _, S754_finite _ _ _ => x
  | S754_finite sx mx ex, S754_finite _ my ey =>
      let e := Z.min ex ey in
      let ax := Zpos mx * 2 ^ (ex - e) in
      let ay := Zpos my * 2 ^ (ey - e) in
      binary_normalize prec emax (cond_Zopp sx (ax mod ay)) e sx
  end.

(** [math.Ceil(x)]: the least integer value not below [x]; zeros,
    infinities and NaN are returned as they are. *)
Definition Ceil (x : float64) : float64 :=
  match x with
  | S754_finite s m e =>
      if 0 <=? e then x
      else
        let n := - ((- cond_Zopp s (Zpos m)) / 2 ^ (- e)) in
        binary_normalize prec emax n 0 s
  | _ => x
  end.

(** [x * y] on [float64]. *)
Definition mul (x y : float64) : float64 := SFmul prec emax x y.

(** [x == y] on [float64]. *)
Definition eq (x y : float64) : bool := SFeqb x y.

(** [int(x)]: the fraction is dropped.  When the value does not fit an
    [int] the language leaves the result to the implementation; it is
    the [int] that [indefinite] gives. *)
Definition toInt (indefinite : float64 -> Z) (x : float64) : Z :=
  match x with
  | S754_zero _ => 0
  | S754_finite s m e =>
      let v := cond_Zopp s (if 0 <=? e then Zpos m * 2 ^ e
                            else Zpos m / 2 ^ (- e)) in
      if (GoInt.minInt <=? v) && (v <=? GoInt.maxInt) then v
      else GoInt.wrap (indefinite x)
  | _ => GoInt.wrap (indefinite x)
  end.

End Math.

(** ** Package [regexp] *)

Module Regexp.
Import Bytes.

(** The regular expressions the program compiles.  The classes of its
    patterns hold ASCII characters only, so a character of several
    bytes matches none of them and matching byte by byte is matching
    rune by rune. *)
Inductive regex :=
| Void
| Empty
| Class (p : ascii -> bool)
| Cat (r1 r2 : regex)
| Alt (r1 r2 : regex)
| Star (r : regex).

(** [r+] *)
Definition Plus (r : regex) : regex := Cat r (Star r).

(** [\d], [\w] and [\s] as RE2 defines them: [0-9], [0-9A-Za-z_] and
    [\t\n\f\r ]. *)
Definition digit (c : ascii) : bool := isDigit c.
Definition word (c : ascii) : bool :=
  isDigit c || isUpper c || isLower c || isByte 95 c.
Definition space (c : ascii) : bool :=
  isByte 9 c || isByte 10 c || isByte 12 c || isByte 13 c || isByte 32 c.

Fixpoint nullable (r : regex) : bool :=
  match r with
  | Void => false
  | Empty => true
  | Class _ => false
  | Cat r1 r2 => nullable r1 && nullable r2
  | Alt r1 r2 => nullable r1 || nullable r2
  | Star _ => true
  end.

(** The derivative of [r] by the byte [c]. *)
Fixpoint deriv (c : ascii) (r : regex) : regex :=
  match r with
  | Void => Void
  | Empty => Void
  | Class p => if p c then Empty else Void
  | Cat r1 r2 =>
      if nullable r1 then Alt (Cat (deriv c r1) r2) (deriv c r2)
      else Cat (deriv c r1) r2
  | Alt r1 r2 => Alt (deriv c r1) (deriv c r2)
  | Star r1 => Cat (deriv c r1) (Star r1)
  end.

Fixpoint matchBytes (r : regex) (s : list ascii) : bool :=
  match s with
  | [] => nullable r
  | c :: s' => matchBytes (deriv c r) s'
  end.

(** [re.MatchString(s)] for a pattern [^r$]: without the [m] flag [^]
    and [$] are the two ends of the text, so the whole of [s] has to
    match [r]. *)
Definition MatchString (r : regex) (s : string) : bool :=
  matchBytes r (bytes s).

(** [re.ReplaceAllString(s, "")] for a pattern that is one character
    class: every character of the class goes.  With a negated class of
    ASCII characters each byte of a longer character, and each byte
    that is no valid UTF-8, is in the class. *)
Definition ReplaceAllString (cls : ascii -> bool) (s : string) : string :=
  str (filter (fun c => negb (cls c)) (bytes s)).

(** The longest prefix in a class, and what follows it. *)
Fixpoint span (cls : ascii -> bool) (s : list ascii)
  : list ascii * list ascii :=
  match s with
  | c :: s' =>
      if cls c then let '(g, r) := span cls s' in (c :: g, r)
      else ([], s)
  | [] => ([], [])
  end.

(** A match of [pre(cls+)post] at the start of [s], for literal [pre]
    and [post] where [post] begins with a byte outside [cls]: the
    group is the whole run of [cls] after [pre]. *)
Definition submatchHere (pre : list ascii) (cls : ascii -> bool)
           (post : list ascii) (s : list ascii) : option (list ascii) :=
  match hasPrefix pre s with
  | Some r =>
      match span cls r with
      | ([], _) => None
      | (g, r') =>
          match hasPrefix post r' with
          | Some _ => Some g
          | None => None
          end
      end
  | None => None
  end.

(** [re.FindStringSubmatch(s)] for such a pattern: the group of the
    leftmost match, [None] for the nil slice of no match. *)
Fixpoint FindStringSubmatch (pre : list ascii) (cls : ascii -> bool)
         (post : list ascii) (s : list ascii) : option (list ascii) :=
  match submatchHere pre cls post s with
  | Some g => Some g
  | None =>
      match s with
      | [] => None
      | _ :: s' => FindStringSubmatch pre cls post s'
      end
  end.

End Regexp.

(** ** Package [time] *)

Module Time.
Import Bytes.

(** The pieces of a layout that the program's two layouts are made of:
    ["2006"], ["01"], ["02"], ["15"], ["04"] and literal bytes. *)
Inductive chunk :=
| stdLongYear
| stdZeroMonth
| stdZeroDay
| stdHour
| stdZeroMinute
| literal (c : ascii).

(** ["2006-01-02"] and ["15:04"] *)
Definition layoutDate : list chunk :=
  [stdLongYear; literal "-"; stdZeroMonth; literal "-"; stdZeroDay].
Definition layoutClock : list chunk :=
  [stdHour; literal ":"; stdZeroMinute].

Record fields := {
  year : Z; month : Z; day : Z; hour : Z; min : Z
}.

Definition digitVal (c : ascii) : Z := code c - 48.

(** [getnum(s, fixed)]: a number of two digits, or of one digit when
    [fixed] is false and no second digit follows. *)
Definition getnum (s : list ascii) (fixed : bool)
  : option (Z * list ascii) :=
  match s with
  | c0 :: r =>
      if isDigit c0 then
        match r with
        | c1 :: r' =>
            if isDigit c1 then Some (digitVal c0 * 10 + digitVal c1, r')
            else if fixed then None else Some (digitVal c0, r)
        | [] => if fixed then None else Some (digitVal c0, r)
        end
      else None
  | [] => None
  end.

Definition isLeap (y : Z) : bool :=
  (Z.rem y 4 =? 0) && (negb (Z.rem y 100 =? 0) || (Z.rem y 400 =? 0)).

Definition daysIn (m y : Z) : Z :=
  if (m =? 2) && isLeap y then 29
  else if m =? 2 then 28
  else if (m =? 4) || (m =? 6) || (m =? 9) || (m =? 11) then 30
  else 31.

(** One turn of the loop of [Parse]: the value has to go on as the
    chunk says; a number out of its range is an error as well. *)
Definition parseChunk (c : chunk) (value : list ascii) (f : fields)
  : option (fields * list ascii) :=
  match c with
  | literal b =>
      match value with
      | v :: rest => if Ascii.eqb v b then Some (f, rest) else None
      | [] => None
      end
  | stdLongYear =>
      match value with
      | a :: b :: c :: d :: rest =>
          if isDigit a && isDigit b && isDigit c && isDigit d then
            Some ({| year := ((digitVal a * 10 + digitVal b) * 10 + digitVal c) * 10
                             + digitVal d;
                     month := month f; day := day f; hour := hour f; min := min f |},
                  rest)
          else None
      | _ => None
      end
  | stdZeroMonth =>
      match getnum value true with
      | Some (m, rest) =>
          if (m <=? 0) || (12 <? m) then None
          else Some ({| year := year f; month := m; day := day f;
                        hour := hour f; min := min f |}, rest)
      | None => None
      end
  | stdZeroDay =>
      match getnum value true with
      | Some (d, rest) =>
          Some ({| year := year f; month := month f; day := d;
                   hour := hour f; min := min f |}, rest)
      | None => None
      end
  | stdHour =>
      match getnum value false with
      | Some (h, rest) =>
          if (h <? 0) || (24 <=? h) then None
          else Some ({| year := year f; month := month f; day := day f;
                        hour := h; min := min f |}, rest)
      | None => None
      end
  | stdZeroMinute =>
      match getnum value true with
      | Some (m, rest) =>
          if (m <? 0) || (60 <=? m) then None
          else Some ({| year := year f; month := month f; day := day f;
                        hour := hour f; min := m |}, rest)
      | None => None
      end
  end.

Fixpoint parseChunks (layout : list chunk) (value : list ascii) (f : fields)
  : option fields :=
  match layout with
  | [] => match value with [] => Some f | _ :: _ => None end
  | c :: layout' =>
      match parseChunk c value f with
      | Some (f', rest) => parseChunks layout' rest f'
      | None => None
      end
  end.

(** [time.Parse(layout, value)]: [None] for an error.  A field the
    layout does not mention keeps its default (year 0, January 1,
    00:00); text left over is an error, and so is a day the month
    does not have. *)
Definition Parse (layout : list chunk) (value : string) : option fields :=
  match parseChunks layout (bytes value)
          {| year := 0; month := 1; day := 1; hour := 0; min := 0 |} with
  | Some f =>
      if (day f <? 1) || (daysIn (month f) (year f) <? day f) then None
      else Some f
  | None => None
  end.

End Time.

(** ** The program *)

Import Bytes Strconv.

Record Item := {
  ShortDescription : string;
  Price : string
}.

Record Receipt := {
  Retailer : string;
  PurchaseDate : string;
  PurchaseTime : string;
  Items : list Item;
  Total : string
}.

(** [a[i]] on a slice: [None] is the run-time panic of an index out of
    range. *)
Definition sliceIndex {A} (a : list A) (i : nat) : option A := nth_error a i.

(** The patterns, without their anchors. *)

(** [[^a-zA-Z0-9]] *)
Definition notAlphanumeric (c : ascii) : bool :=
  negb (isLower c || isUpper c || isDigit c).

(** [^[\w\s\-&]+$] *)
Definition retailerPattern : Regexp.regex :=
  Regexp.Plus (Regexp.Class (fun c =>
    Regexp.word c || Regexp.space c || isByte 45 c || isByte 38 c)).

(** [^\d+\.\d{2}$] *)
Definition totalPricePattern : Regexp.regex :=
  Regexp.Cat (Regexp.Plus (Regexp.Class Regexp.digit))
    (Regexp.Cat (Regexp.Class (isByte 46))
       (Regexp.Cat (Regexp.Class Regexp.digit) (Regexp.Class Regexp.digit))).

(** [^[\w\s\-]+$] *)
Definition ShortDescriptionPattern : Regexp.regex :=
  Regexp.Plus (Regexp.Class (fun c =>
    Regexp.word c || Regexp.space c || isByte 45 c)).

(** [[a-f0-9\-]] *)
Definition uuidClass (c : ascii) : bool :=
  between 97 102 c || isDigit c || isByte 45 c.

Section Scorer.

(** What [int(x)] yields for an [x] that no [int] holds. *)
Variable indefinite : float64 -> Z.

(** Lines 47-49: one point for every alphanumeric character of the
    retailer name. *)
Definition retailerRule (receipt : Receipt) (points : Z) : Z :=
  let alphanumericRetailer :=
    Regexp.ReplaceAllString notAlphanumeric (Retailer receipt) in
  GoInt.add points (Bytes.len alphanumericRetailer).

(** Lines 51-59: the error of [ParseFloat] is dropped. *)
Definition totalRules (receipt : Receipt) (points : Z) : Z :=
  let '(total, _) := ParseFloat (Total receipt) in
  let points :=
    if Math.eq (Math.Mod total Math.f1) Math.f0
    then GoInt.add points 50 else points in
  let points :=
    if Math.eq (Math.Mod total Math.f0_25) Math.f0
    then GoInt.add points 25 else points in
  points.

(** Line 61 *)
Definition pairsRule (receipt : Receipt) (points : Z) : Z :=
  GoInt.add points
    (GoInt.mul (GoInt.quot (GoInt.len (Items receipt)) 2) 5).

(** [int(math.Ceil(price * 0.2))], line 67. *)
Definition priceBonus (price : float64) : Z :=
  Math.toInt indefinite (Math.Ceil (Math.mul price Math.f0_2)).

(** Lines 64-68, the body of the loop over the items. *)
Definition itemBody (points : Z) (item : Item) : Z :=
  let description := Strings.TrimSpace (ShortDescription item) in
  if GoInt.rem (Bytes.len description) 3 =? 0 then
    let '(price, _) := ParseFloat (Price item) in
    GoInt.add points (priceBonus price)
  else points.

(** Lines 63-69 *)
Definition itemsLoop (items : list Item) (points : Z) : Z :=
  fold_left itemBody items points.

(** Lines 71-77 *)
Definition dayRule (receipt : Receipt) (points : Z) : option Z :=
  let dateParts := Strings.Split (PurchaseDate receipt) "-" in
  if GoInt.len dateParts =? 3 then
    match sliceIndex dateParts 2 with
    | Some part =>
        let '(day, _) := Atoi part in
        Some (if negb (GoInt.rem day 2 =? 0) then GoInt.add points 6
              else points)
    | None => None
    end
  else Some points.

(** [hour*60 + minute], line 83. *)
Definition timeValue (hour minute : Z) : Z :=
  GoInt.add (GoInt.mul hour 60) minute.

(** Lines 79-87 *)
Definition timeRule (receipt : Receipt) (points : Z) : option Z :=
  let purchaseTimeParts := Strings.Split (PurchaseTime receipt) ":" in
  if GoInt.len purchaseTimeParts =? 2 then
    match sliceIndex purchaseTimeParts 0, sliceIndex purchaseTimeParts 1 with
    | Some part0, Some part1 =>
        let '(hour, _) := Atoi part0 in
        let '(minute, _) := Atoi part1 in
        let timeVal := timeValue hour minute in
        Some (if (840 <=? timeVal) && (timeVal <? 960)
              then GoInt.add points 10 else points)
    | _, _ => None
    end
  else Some points.

(** The points before the loop over the items, after it, and before
    the rule of the time of purchase. *)
Definition pointsBeforeItems (receipt : Receipt) : Z :=
  pairsRule receipt (totalRules receipt (retailerRule receipt 0)).

Definition pointsAfterItems (receipt : Receipt) : Z :=
  itemsLoop (Items receipt) (pointsBeforeItems receipt).

Definition pointsBeforeTime (receipt : Receipt) : option Z :=
  dayRule receipt (pointsAfterItems receipt).

(** [calculatePoints], lines 44-90: [None] would be a panic. *)
Definition calculatePoints (receipt : Receipt) : option Z :=
  let points := 0 in
  let points := retailerRule receipt points in
  let points := totalRules receipt points in
  let points := pairsRule receipt points in
  let points := itemsLoop (Items receipt) points in
  match dayRule receipt points with
  | Some points => timeRule receipt points
  | None => None
  end.

End Scorer.

(** [extractUUID], lines 93-100: the group of the leftmost match of
    [/receipts/([a-f0-9\-]+)/points] in the path, or the empty string. *)
Definition extractUUID (url : string) : string :=
  match Regexp.FindStringSubmatch (bytes "/receipts/") uuidClass
          (bytes "/points") (bytes url) with
  | Some g => str g
  | None => ""%string
  end.

(** An [error] is its message; [None] is [nil]. *)
Definition error := option string.

Definition invalidReceipt : error := Some "The receipt is invalid."%string.

Definition isEmpty (s : string) : bool := String.eqb s "".

Definition isErr {A} (r : option A) : bool :=
  match r with Some _ => false | None => true end.

(** Lines 126-137, the loop over the items, which returns at the first
    item that is not valid. *)
Fixpoint validateItems (items : list Item) : error :=
  match items with
  | [] => None
  | item :: rest =>
      if isEmpty (ShortDescription item) || isEmpty (Price item) then
        invalidReceipt
      else if negb (Regexp.MatchString ShortDescriptionPattern
                      (ShortDescription item)) then
        invalidReceipt
      else if negb (Regexp.MatchString totalPricePattern (Price item)) then
        invalidReceipt
      else validateItems rest
  end.

(** [validateReceipt], lines 103-139. *)
Definition validateReceipt (receipt : Receipt) : error :=
  if isEmpty (Retailer receipt) || isEmpty (PurchaseDate receipt)
     || isEmpty (PurchaseTime receipt) || isEmpty (Total receipt)
     || (GoInt.len (Items receipt) =? 0) then
    invalidReceipt
  else if negb (Regexp.MatchString retailerPattern (Retailer receipt)) then
    invalidReceipt
  else if isErr (Time.Parse Time.layoutDate (PurchaseDate receipt)) then
    invalidReceipt
  else if isErr (Time.Parse Time.layoutClock (PurchaseTime receipt)) then
    invalidReceipt
  else if negb (Regexp.MatchString totalPricePattern (Total receipt)) then
    invalidReceipt
  else validateItems (Items receipt).

(** ** The store and the two handlers *)

(** The two global maps. *)
Record Store := {
  receipts : gmap string Receipt;
  points : gmap string Z
}.

Definition emptyStore : Store := {| receipts := ∅; points := ∅ |}.

(** What a handler writes: [http.Error(w, msg, code)], or the JSON of a
    [ResponseID] or of a [ResponsePoints]. *)
Inductive Response :=
| Error (msg : string) (code : Z)
| ResponseID (ID : string)
| ResponsePoints (Points : Z).

Definition StatusBadRequest : Z := 400.
Definition StatusNotFound : Z := 404.

(** [getPointsHandler], lines 142-155, for the path of the request. *)
Definition getPointsHandler (path : string) (st : Store) : Response :=
  let id := extractUUID path in
  match points st !! id with
  | None => Error "No receipt found for that ID." StatusNotFound
  | Some p => ResponsePoints p
  end.

Section Handlers.

Variable indefinite : float64 -> Z.

(** [processReceiptHandler], lines 158-177, run from its first line to
    its last with no other request in between.  [body] is the receipt
    decoded from the request, [None] when decoding fails; [id] is the
    string of the fresh UUID.  [None] as a result is a panic. *)
Definition processReceiptHandler (body : option Receipt) (id : string)
           (st : Store) : option (Store * Response) :=
  match body with
  | None => Some (st, Error "The receipt is invalid." StatusBadRequest)
  | Some receipt =>
      match validateReceipt receipt with
      | Some msg => Some (st, Error msg StatusBadRequest)
      | None =>
          match calculatePoints indefinite receipt with
          | None => None
          | Some p =>
              let st1 := {| receipts := receipts st;
                            points := <[id := p]> (points st) |} in
              let st2 := {| receipts := <[id := receipt]> (receipts st1);
                            points := points st1 |} in
              Some (st2, ResponseID id)
          end
      end
  end.

(** *** Requests served at the same time

    Every request runs in a goroutine of its own.  A request is where
    it stands in its handler; a step of the server is one statement of
    one request.  [mutex.Lock()] can only be taken by one request at a
    time. *)
Inductive request :=
| AtLine171 (receipt : Receipt) (id : string)   (* points[id] = ... *)
| AtLine172 (receipt : Receipt) (id : string)   (* mutex.Lock() *)
| AtLine173 (receipt : Receipt) (id : string)   (* receipts[id] = receipt *)
| AtLine174 (id : string)                       (* mutex.Unlock() *)
| AtLine144 (id : string)                       (* mutex.Lock() *)
| AtLine145 (id : string)                       (* p, exists := points[id] *)
| AtLine146 (id : string) (p : option Z)        (* mutex.Unlock() *)
| Answered (resp : Response).

Record server := {
  store : Store;
  mutex : bool;              (* true while a request holds it *)
  requests : list request
}.

(** One statement of a request; [None] when it cannot run: the mutex
    is held by another request, the request is over, or it panics. *)
Definition statement (st : Store) (held : bool) (r : request)
  : option (Store * bool * request) :=
  match r with
  | AtLine171 receipt id =>
      match calculatePoints indefinite receipt with
      | Some p =>
          Some ({| receipts := receipts st; points := <[id := p]> (points st) |},
                held, AtLine172 receipt id)
      | None => None
      end
  | AtLine172 receipt id =>
      if held then None else Some (st, true, AtLine173 receipt id)
  | AtLine173 receipt id =>
      Some ({| receipts := <[id := receipt]> (receipts st); points := points st |},
            held, AtLine174 id)
  | AtLine174 id => Some (st, false, Answered (ResponseID id))
  | AtLine144 id =>
      if held then None else Some (st, true, AtLine145 id)
  | AtLine145 id => Some (st, held, AtLine146 id (points st !! id))
  | AtLine146 id p =>
      Some (st, false,
            Answered match p with
                     | Some v => ResponsePoints v
                     | None => Error "No receipt found for that ID." StatusNotFound
                     end)
  | Answered _ => None
  end.

(** The server moves when one of its requests runs a statement. *)
Inductive step : server -> server -> Prop :=
| step_request (s : server) (i : nat) (r r' : request) (st' : Store) (held' : bool) :
    requests s !! i = Some r ->
    statement (store s) (mutex s) r = Some (st', held', r') ->
    step s {| store := st'; mutex := held';
              requests := <[i := r']> (requests s) |}.

(** The states the server can get to. *)
Definition reachable (s0 s : server) : Prop := rtc step s0 s.

(** A request that is reading the points of [id], inside its critical
    section. *)
Definition reading (s : server) (id : string) : Prop :=
  mutex s = true /\ exists i, requests s !! i = Some (AtLine145 id).

(** The identifier has points if and only if it has a receipt. *)
Definition paired (st : Store) (id : string) : Prop :=
  is_Some (points st !! id) <-> is_Some (receipts st !! id).

End Handlers.

(** ** Notions of the specification *)

(** The sum of a list of integers. *)
Definition sumZ (l : list Z) : Z := fold_right Z.add 0 l.

(** The description rule in the words of the specification: the price
    bonus when the length of the trimmed description is a multiple of
    3, nothing otherwise. *)
Definition descriptionBonus (indefinite : float64 -> Z) (item : Item) : Z :=
  if Z.of_nat (String.length (Strings.TrimSpace (ShortDescription item))) mod 3 =? 0
  then priceBonus indefinite (fst (ParseFloat (Price item)))
  else 0.

(** The strings a regular expression denotes. *)
Inductive lang : Regexp.regex -> list ascii -> Prop :=
| lang_empty : lang Regexp.Empty []
| lang_class p c : p c = true -> lang (Regexp.Class p) [c]
| lang_cat r1 r2 s1 s2 :
    lang r1 s1 -> lang r2 s2 -> lang (Regexp.Cat r1 r2) (s1 ++ s2)
| lang_alt_l r1 r2 s : lang r1 s -> lang (Regexp.Alt r1 r2) s
| lang_alt_r r1 r2 s : lang r2 s -> lang (Regexp.Alt r1 r2) s
| lang_star_nil r : lang (Regexp.Star r) []
| lang_star_cons r s1 s2 :
    lang r s1 -> lang (Regexp.Star r) s2 -> lang (Regexp.Star r) (s1 ++ s2).

(** What an item has passed when the loop goes on. *)
Definition itemPassed (item : Item) : Prop :=
  isEmpty (ShortDescription item) = false /\
  isEmpty (Price item) = false /\
  Regexp.MatchString ShortDescriptionPattern (ShortDescription item) = true /\
  Regexp.MatchString totalPricePattern (Price item) = true.

(** One or more digits, a dot, two digits. *)
Definition twoDecimals (s : string) : Prop :=
  exists (ds : list ascii) (d1 d2 : ascii),
    s = str (ds ++ ["."%char; d1; d2]) /\ ds <> [] /\
    Forall (fun c => isDigit c = true) ds /\
    isDigit d1 = true /\ isDigit d2 = true.

(** The days of a month of the Gregorian calendar. *)
Definition leapYear (y : Z) : bool :=
  (y mod 4 =? 0) && (negb (y mod 100 =? 0) || (y mod 400 =? 0)).

Definition daysOfMonth (y m : Z) : Z :=
  nth (Z.to_nat (m - 1))
    [31; if leapYear y then 29 else 28; 31; 30; 31; 30; 31; 31; 30; 31; 30; 31] 0.

(** [YYYY-MM-DD], a day that exists. *)
Definition calendarDate (s : string) : Prop :=
  exists y1 y2 y3 y4 m1 m2 d1 d2 : ascii,
    s = str [y1; y2; y3; y4; "-"%char; m1; m2; "-"%char; d1; d2] /\
    Forall (fun c => isDigit c = true) [y1; y2; y3; y4; m1; m2; d1; d2] /\
    let num2 (a b : ascii) := (code a - 48) * 10 + (code b - 48) in
    let y := num2 y1 y2 * 100 + num2 y3 y4 in
    1 <= num2 m1 m2 <= 12 /\
    1 <= num2 d1 d2 <= daysOfMonth y (num2 m1 m2).

(** The string of a UUID, as [uuid.UUID.String] writes it: 36 bytes,
    hyphens at 8, 13, 18 and 23, lower-case hexadecimal digits
    elsewhere. *)
Definition hexLower (c : ascii) : bool := isDigit c || between 97 102 c.

Fixpoint uuidShape (i : nat) (s : list ascii) : bool :=
  match s with
  | [] => (i =? 36)%nat
  | c :: s' =>
      (if (i =? 8)%nat || (i =? 13)%nat || (i =? 18)%nat || (i =? 23)%nat
       then isByte 45 c else hexLower c)
      && uuidShape (S i) s'
  end.

Definition isUUIDString (id : string) : bool := uuidShape 0 (bytes id).

(** The path of the points of a receipt. *)
Definition pointsPath (id : string) : string :=
  ("/receipts/" ++ id ++ "/points")%string.

(** Only white space of the pattern class [\s]. *)
Definition blank (s : string) : Prop :=
  s <> ""%string /\ Forall (fun c => Regexp.space c = true) (bytes s).

(** [r] with the description of its [k]-th item replaced. *)
Definition withDescription (r : Receipt) (k : nat) (d : string) : Receipt :=
  {| Retailer := Retailer r; PurchaseDate := PurchaseDate r;
     PurchaseTime := PurchaseTime r;
     Items := match Items r !! k with
              | Some item =>
                  <[k := {| ShortDescription := d; Price := Price item |}]> (Items r)
              | None => Items r
              end;
     Total := Total r |}.

(** ** Receipts of the examples *)

Definition targetReceipt : Receipt :=
  {| Retailer := "Target";
     PurchaseDate := "2022-01-01";
     PurchaseTime := "13:01";
     Items := [ {| ShortDescription := "Mountain Dew 12PK"; Price := "6.49" |};
                {| ShortDescription := "Emils Cheese Pizza"; Price := "12.25" |};
                {| ShortDescription := "Knorr Creamy Chicken"; Price := "1.26" |};
                {| ShortDescription := "Doritos Nacho Cheese"; Price := "3.35" |};
                {| ShortDescription := "   Klarbrunn 12-PK 12 FL OZ  ";
                   Price := "12.00" |} ];
     Total := "35.35" |}.

Definition withTotal (r : Receipt) (t : string) : Receipt :=
  {| Retailer := Retailer r; PurchaseDate := PurchaseDate r;
     PurchaseTime := PurchaseTime r; Items := Items r; Total := t |}.

Definition withTime (r : Receipt) (t : string) : Receipt :=
  {| Retailer := Retailer r; PurchaseDate := PurchaseDate r;
     PurchaseTime := t; Items := Items r; Total := Total r |}.

Definition withDate (r : Receipt) (d : string) : Receipt :=
  {| Retailer := Retailer r; PurchaseDate := d;
     PurchaseTime := PurchaseTime r; Items := Items r; Total := Total r |}.

(** A platform where a conversion out of range gives the least [int],
    as the conversion instruction of amd64 does. *)
Definition amd64 (_ : float64) : Z := GoInt.minInt.

Definition sampleID : string := "7fb1377b-b223-49d9-a31a-5a02701dd310".

(** The requests of the run: one stores the receipt of the example
    under [sampleID], the other looks the identifier [k] up. *)
Definition twoRequests (k : string) : server :=
  {| store := emptyStore; mutex := false;
     requests := [AtLine171 targetReceipt sampleID; AtLine144 k] |}.

(** The store once line 171 has run and line 173 has not. *)
Definition pointsOnly : Store :=
  {| receipts := ∅; points := <[sampleID := 28]> ∅ |}.

(** The bytes a retailer name is made of: letters, digits, underscore,
    tab, line feed, form feed, carriage return, space, hyphen and
    ampersand; a description has the same but for the ampersand. *)
Definition descriptionByte (c : ascii) : bool :=
  isLower c || isUpper c || isDigit c || isByte 95 c
  || isByte 9 c || isByte 10 c || isByte 12 c || isByte 13 c || isByte 32 c
  || isByte 45 c.

Definition retailerByte (c : ascii) : bool :=
  descriptionByte c || isByte 38 c.

(** [H:MM] or [HH:MM], an hour up to 23 and a minute up to 59. *)
Definition clockTime (s : string) : Prop :=
  let num2 (a b : ascii) := (code a - 48) * 10 + (code b - 48) in
  (exists h m1 m2 : ascii,
      s = str [h; ":"%char; m1; m2] /\
      Forall (fun c => isDigit c = true) [h; m1; m2] /\
      num2 m1 m2 <= 59) \/
  (exists h1 h2 m1 m2 : ascii,
      s = str [h1; h2; ":"%char; m1; m2] /\
      Forall (fun c => isDigit c = true) [h1; h2; m1; m2] /\
      num2 h1 h2 <= 23 /\ num2 m1 m2 <= 59).

(** A receipt as the validator wants it. *)
Definition wellFormedItem (item : Item) : Prop :=
  ShortDescription item <> ""%string /\
  Forall (fun c => descriptionByte c = true) (bytes (ShortDescription item)) /\
  twoDecimals (Price item).

Definition wellFormed (r : Receipt) : Prop :=
  Retailer r <> ""%string /\
  Forall (fun c => retailerByte c = true) (bytes (Retailer r)) /\
  calendarDate (PurchaseDate r) /\
  clockTime (PurchaseTime r) /\
  twoDecimals (Total r) /\
  Items r <> [] /\
  Forall wellFormedItem (Items r).

(** The number that a string of digits writes. *)
Definition decimalValue (l : list ascii) : Z :=
  fold_left (fun n c => n * 10 + (code c - 48)) l 0.

(** What [ParseFloat] returns for a number that is well formed: the
    value, with [ErrRange] when it is an infinity. *)
Definition rangeChecked (v : float64) : float64 * option NumError :=
  match v with
  | S754_infinity sg => (S754_infinity sg, Some ErrRange)
  | _ => (v, None)
  end.

(** The points of each rule, taken by itself. *)
Definition retailerPoints (r : Receipt) : Z :=
  Z.of_nat (length (List.filter (fun c => isLower c || isUpper c || isDigit c)
                      (bytes (Retailer r)))).

Definition roundDollarPoints (r : Receipt) : Z :=
  if Math.eq (Math.Mod (fst (ParseFloat (Total r))) Math.f1) Math.f0
  then 50 else 0.

Definition quarterPoints (r : Receipt) : Z :=
  if Math.eq (Math.Mod (fst (ParseFloat (Total r))) Math.f0_25) Math.f0
  then 25 else 0.

Definition pairPoints (r : Receipt) : Z :=
  5 * (Z.of_nat (length (Items r)) / 2).

Definition itemPoints (indefinite : float64 -> Z) (r : Receipt) : Z :=
  sumZ (map (descriptionBonus indefinite) (Items r)).

Definition dayPoints (r : Receipt) : Z :=
  match Strings.Split (PurchaseDate r) "-" with
  | [_; _; day] => if Z.odd (fst (Atoi day)) then 6 else 0
  | _ => 0
  end.

Definition timePoints (r : Receipt) : Z :=
  match Strings.Split (PurchaseTime r) ":" with
  | [hour; minute] =>
      let timeVal := timeValue (fst (Atoi hour)) (fst (Atoi minute)) in
      if (840 <=? timeVal) && (timeVal <? 960) then 10 else 0
  | _ => 0
  end.

Definition rulePoints (indefinite : float64 -> Z) (r : Receipt) : Z :=
  retailerPoints r + roundDollarPoints r + quarterPoints r + pairPoints r
  + itemPoints indefinite r + dayPoints r + timePoints r.

Definition withItems (r : Receipt) (l : list Item) : Receipt :=
  {| Retailer := Retailer r; PurchaseDate := PurchaseDate r;
     PurchaseTime := PurchaseTime r; Items := l; Total := Total r |}.

(** *** Requests served one after the other

    A call of a handler as the server makes it: [processReceiptHandler]
    with the decoded body and the identifier drawn for it, or
    [getPointsHandler] with the path. *)
Inductive call :=
| Process (body : option Receipt) (id : string)
| GetPoints (path : string).

Section Serving.

Variable indefinite : float64 -> Z.

Definition serveCall (c : call) (st : Store) : option (Store * Response) :=
  match c with
  | Process body id => processReceiptHandler indefinite body id st
  | GetPoints path => Some (st, getPointsHandler path st)
  end.

(** The calls in their order, each on the store the one before left;
    the result is the last store and the responses. *)
Fixpoint serve (cs : list call) (st : Store) : option (Store * list Response) :=
  match cs with
  | [] => Some (st, [])
  | c :: cs' =>
      match serveCall c st with
      | Some (st', resp) =>
          match serve cs' st' with
          | Some (st'', resps) => Some (st'', resp :: resps)
          | None => None
          end
      | None => None
      end
  end.

End Serving.

(** The validator has no error for the receipt. *)
Definition accepted (r : Receipt) : bool :=
  match validateReceipt r with None => true | Some _ => false end.

(** The receipt that the calls have stored under [k]: that of the last
    call to store, under that identifier, a receipt that is valid. *)
Definition latestStored (cs : list call) (k : string) : option Receipt :=
  fold_left
    (fun found c =>
       match c with
       | Process (Some r) id =>
           if String.eqb id k && accepted r then Some r else found
       | _ => found
       end)
    cs None.

(** Under every identifier the store holds a valid receipt with its
    own score, or neither a receipt nor points. *)
Definition consistent (indefinite : float64 -> Z) (st : Store) : Prop :=
  forall k,
    match receipts st !! k with
    | Some r =>
        validateReceipt r = None /\
        points st !! k = calculatePoints indefinite r
    | None => points st !! k = None
    end.

(** The two fixed replies to a request that fails. *)
Definition invalidReply : Response :=
  Error "The receipt is invalid." StatusBadRequest.

Definition notFoundReply : Response :=
  Error "No receipt found for that ID." StatusNotFound.

(** *** Where a request stands *)

(** Between [mutex.Lock()] and [mutex.Unlock()]. *)
Definition inCritical (r : request) : bool :=
  match r with
  | AtLine173 _ _ | AtLine174 _ | AtLine145 _ | AtLine146 _ _ => true
  | _ => false
  end.

(** At the first statement of its handler that touches the store. *)
Definition entering (r : request) : bool :=
  match r with
  | AtLine171 _ _ | AtLine144 _ => true
  | _ => false
  end.

Definition isAnswered (r : request) : bool :=
  match r with Answered _ => true | _ => false end.

(** Between the write of the points of [k] and the write of its
    receipt. *)
Definition storing (k : string) (r : request) : Prop :=
  exists receipt, r = AtLine172 receipt k \/ r = AtLine173 receipt k.



Definition criticalCount (s : server) : nat :=
  length (List.filter inCritical (requests s)).

(** A server whose requests have all just come in: the mutex is free
    and the store has points exactly where it has a receipt. *)
Definition started (s : server) : Prop :=
  mutex s = false /\
  Forall (fun r => entering r = true) (requests s) /\
  forall k, paired (store s) k.

(** All requests have their response. *)
Definition quiescent (s : server) : Prop :=
  Forall (fun r => isAnswered r = true) (requests s).
(** What the store keeps while requests run at the same time: a
    receipt always has points; points have a receipt unless a request
    stands between writing the two; and such a request has written the
    points. *)
Definition halfPaired (s : server) : Prop :=
  forall k,
    (is_Some (receipts (store s) !! k) -> is_Some (points (store s) !! k)) /\
    (is_Some (points (store s) !! k) ->
     is_Some (receipts (store s) !! k) \/
     exists i r, requests s !! i = Some r /\ storing k r) /\
    (forall i r, requests s !! i = Some r -> storing k r ->
                 is_Some (points (store s) !! k)).

(** The integer part of a float64, for a zero or a finite number. *)
Definition truncated (x : float64) : option Z :=
  match x with
  | S754_zero _ => Some 0
  | S754_finite s m e =>
      Some (cond_Zopp s (if 0 <=? e then Zpos m * 2 ^ e else Zpos m / 2 ^ (- e)))
  | _ => None
  end.

(** [int(x)] is defined by the language: [x] is a number whose integer
    part an [int] holds. *)
Definition fitsInt (x : float64) : Prop :=
  exists v, truncated x = Some v /\ GoInt.in_range v.

(** The price bonus of every item whose description counts is a
    conversion that the language defines. *)
Definition bonusesFit (r : Receipt) : Prop :=
  Forall (fun item =>
            fitsInt (Math.Ceil (Math.mul (fst (ParseFloat (Price item))) Math.f0_2)))
         (Items r).

(** Not below zero: NaN apart, the sign is not set, or the number is a
    zero. *)
Definition notNegative (x : float64) : Prop :=
  match x with
  | S754_finite s _ _ | S754_infinity s => s = false
  | _ => True
  end.

(** * Properties *)

Ltac break_match :=
  repeat match goal with
         | |- context [match ?x with _ => _ end] => destruct x eqn:?
         end.



(** ** Wrap-around arithmetic *)

Lemma wrap_range z : GoInt.in_range (GoInt.wrap z).
Proof.
  unfold GoInt.in_range, GoInt.wrap, GoInt.minInt, GoInt.maxInt.
  pose proof (Z.mod_pos_bound (z + 2 ^ 63) (2 ^ 64) ltac:(lia)). lia.
Qed.

Lemma wrap_id z : GoInt.in_range z -> GoInt.wrap z = z.
Proof.
  unfold GoInt.in_range, GoInt.wrap, GoInt.minInt, GoInt.maxInt. intros H.
  rewrite Z.mod_small; lia.
Qed.

Lemma wrap_add_l a b : GoInt.wrap (GoInt.wrap a + b) = GoInt.wrap (a + b).
Proof.
  unfold GoInt.wrap. f_equal.
  replace ((a + 2 ^ 63) mod 2 ^ 64 - 2 ^ 63 + b + 2 ^ 63)
    with ((a + 2 ^ 63) mod 2 ^ 64 + b) by lia.
  rewrite Zplus_mod_idemp_l. f_equal. lia.
Qed.

Lemma wrap_wrap a : GoInt.wrap (GoInt.wrap a) = GoInt.wrap a.
Proof. apply wrap_id, wrap_range. Qed.

Lemma add_ne p k : 0 < k < 2 ^ 64 -> GoInt.in_range p -> GoInt.add p k <> p.
Proof.
  unfold GoInt.add, GoInt.wrap, GoInt.in_range, GoInt.minInt, GoInt.maxInt.
  intros Hk Hp E.
  assert (H : (p + k + 2 ^ 63) mod 2 ^ 64 = p + 2 ^ 63) by lia.
  destruct (Z_lt_ge_dec (p + k + 2 ^ 63) (2 ^ 64)) as [Hlt|Hge].
  - rewrite Z.mod_small in H; lia.
  - replace (p + k + 2 ^ 63) with ((p + k + 2 ^ 63 - 2 ^ 64) + 1 * 2 ^ 64) in H by lia.
    rewrite Z_mod_plus_full in H. rewrite Z.mod_small in H; lia.
Qed.


(** ** The matcher decides the language *)

Section RegexpFacts.
Import Regexp.

Lemma lang_cat_inv r1 r2 s :
  lang (Cat r1 r2) s -> exists s1 s2, s = s1 ++ s2 /\ lang r1 s1 /\ lang r2 s2.
Proof. intros H. inversion H; subst. eauto. Qed.

Lemma lang_alt_inv r1 r2 s : lang (Alt r1 r2) s -> lang r1 s \/ lang r2 s.
Proof. intros H. inversion H; subst; auto. Qed.

Lemma nullable_lang r : nullable r = true <-> lang r [].
Proof.
  induction r; simpl.
  - split; [discriminate | intros H; inversion H].
  - split; [constructor | reflexivity].
  - split; [discriminate | intros H; inversion H].
  - rewrite andb_true_iff, IHr1, IHr2. split.
    + intros [H1 H2]. change (@nil ascii) with (@nil ascii ++ []).
      constructor; auto.
    + intros H. apply lang_cat_inv in H as (s1 & s2 & E & Ha & Hb).
      symmetry in E. apply app_eq_nil in E as [-> ->]. auto.
  - rewrite orb_true_iff, IHr1, IHr2. split.
    + intros [H|H]; [apply lang_alt_l | apply lang_alt_r]; auto.
    + apply lang_alt_inv.
  - split; [constructor | reflexivity].
Qed.

Lemma star_cons_inv r c s :
  lang (Star r) (c :: s) ->
  exists s1 s2, s = s1 ++ s2 /\ lang r (c :: s1) /\ lang (Star r) s2.
Proof.
  intros H. remember (Star r) as r0 eqn:Er. remember (c :: s) as s0 eqn:Es.
  revert s Es. induction H; intros t Es; try discriminate.
  injection Er as ->.
  destruct s1 as [|a s1]; simpl in Es.
  - apply IHlang2; auto.
  - injection Es as -> <-. eauto.
Qed.

Lemma deriv_lang c r s : lang (deriv c r) s <-> lang r (c :: s).
Proof.
  revert s. induction r; intros s; simpl.
  - split; intros H; inversion H.
  - split; intros H; inversion H.
  - destruct (p c) eqn:Hp; split; intros H; inversion H; subst.
    + constructor; auto.
    + constructor.
    + congruence.
  - split.
    + intros H. destruct (nullable r1) eqn:Hn.
      * apply lang_alt_inv in H as [H1|H1].
        -- apply lang_cat_inv in H1 as (s1 & s2 & -> & Ha & Hb).
           change (c :: s1 ++ s2) with ((c :: s1) ++ s2).
           constructor; auto. apply IHr1; auto.
        -- change (c :: s) with ([] ++ c :: s). constructor.
           ++ apply nullable_lang; auto.
           ++ apply IHr2; auto.
      * apply lang_cat_inv in H as (s1 & s2 & -> & Ha & Hb).
        change (c :: s1 ++ s2) with ((c :: s1) ++ s2).
        constructor; auto. apply IHr1; auto.
    + intros H. apply lang_cat_inv in H as (s1 & s2 & E & Ha & Hb).
      destruct s1 as [|a s1]; simpl in E.
      * subst s2. apply nullable_lang in Ha. rewrite Ha.
        apply lang_alt_r. apply IHr2; auto.
      * injection E as Ec ->. subst a.
        assert (lang (Cat (deriv c r1) r2) (s1 ++ s2))
          by (constructor; auto; apply IHr1; auto).
        destruct (nullable r1); auto. apply lang_alt_l; auto.
  - split; intros H; apply lang_alt_inv in H as [H|H].
    + apply lang_alt_l, IHr1; auto.
    + apply lang_alt_r, IHr2; auto.
    + apply lang_alt_l, IHr1; auto.
    + apply lang_alt_r, IHr2; auto.
  - split.
    + intros H. apply lang_cat_inv in H as (s1 & s2 & -> & Ha & Hb).
      change (c :: s1 ++ s2) with ((c :: s1) ++ s2).
      constructor; auto. apply IHr; auto.
    + intros H. apply star_cons_inv in H as (s1 & s2 & -> & H1 & H2).
      constructor; auto. apply IHr; auto.
Qed.

Lemma matchBytes_lang r s : matchBytes r s = true <-> lang r s.
Proof.
  revert r. induction s as [|c s IH]; intros r; simpl.
  - apply nullable_lang.
  - rewrite IH. apply deriv_lang.
Qed.

Lemma lang_class_inv p s : lang (Class p) s -> exists c, s = [c] /\ p c = true.
Proof. intros H. inversion H; subst. eauto. Qed.

Lemma lang_star_class p s :
  lang (Star (Class p)) s <-> Forall (fun c => p c = true) s.
Proof.
  split.
  - induction s as [|c s IH]; intros H; [constructor|].
    apply star_cons_inv in H as (s1 & s2 & -> & H1 & H2).
    apply lang_class_inv in H1 as (c' & E & Hp). injection E as Ec Es.
    subst c' s1. constructor; auto.
  - induction 1 as [|c s Hc _ IH]; [constructor|].
    change (c :: s) with ([c] ++ s). constructor; auto. constructor; auto.
Qed.

Lemma lang_plus_class p s :
  lang (Plus (Class p)) s <-> s <> [] /\ Forall (fun c => p c = true) s.
Proof.
  unfold Plus. split.
  - intros H. apply lang_cat_inv in H as (s1 & s2 & -> & Ha & Hb).
    apply lang_class_inv in Ha as (c & -> & Hp). split; [discriminate|].
    constructor; auto. apply lang_star_class; auto.
  - intros [Hne Hall]. destruct s as [|c s]; [congruence|].
    inversion Hall; subst. change (c :: s) with ([c] ++ s).
    constructor; [constructor; auto|apply lang_star_class; auto].
Qed.

End RegexpFacts.

Lemma str_bytes s : str (bytes s) = s.
Proof. apply string_of_list_ascii_of_string. Qed.

Lemma bytes_str l : bytes (str l) = l.
Proof. apply list_ascii_of_string_of_list_ascii. Qed.

Lemma totalPricePattern_twoDecimals s :
  Regexp.MatchString totalPricePattern s = true <-> twoDecimals s.
Proof.
  unfold Regexp.MatchString, totalPricePattern, twoDecimals.
  rewrite matchBytes_lang. split.
  - intros H.
    apply lang_cat_inv in H as (ds & t1 & E1 & Hds & Ht1).
    apply lang_cat_inv in Ht1 as (dot & t2 & -> & Hdot & Ht2).
    apply lang_cat_inv in Ht2 as (a & b & -> & Ha & Hb).
    apply lang_plus_class in Hds as [Hne Hall].
    apply lang_class_inv in Hdot as (c & -> & Hc).
    apply lang_class_inv in Ha as (d1 & -> & Hd1).
    apply lang_class_inv in Hb as (d2 & -> & Hd2).
    exists ds, d1, d2. repeat split; auto.
    rewrite <- (str_bytes s), E1. do 2 f_equal.
    unfold isByte, code in Hc. apply Z.eqb_eq in Hc.
    destruct c as [[] [] [] [] [] [] [] []]; simpl in Hc; try discriminate; reflexivity.
  - intros (ds & d1 & d2 & -> & Hne & Hall & H1 & H2).
    rewrite bytes_str.
    constructor; [apply lang_plus_class; auto|].
    change ["."%char; d1; d2] with (["."%char] ++ [d1] ++ [d2]).
    repeat constructor; auto.
Qed.


(** ** Numbers that do not parse *)

Lemma Atoi_syntax s : snd (Atoi s) = Some ErrSyntax -> fst (Atoi s) = 0.
Proof.
  unfold Atoi, ParseInt, ParseUint.
  break_match; simpl; congruence.
Qed.

Lemma ParseFloat_syntax s :
  snd (ParseFloat s) = Some ErrSyntax -> fst (ParseFloat s) = S754_zero false.
Proof.
  unfold ParseFloat. break_match; simpl; congruence.
Qed.

Lemma priceBonus_zero indefinite : priceBonus indefinite (S754_zero false) = 0.
Proof. reflexivity. Qed.

(** ** The scorer returns *)

Lemma sliceIndex_some {A} (l : list A) (i : nat) :
  (i < length l)%nat -> exists x, sliceIndex l i = Some x.
Proof.
  intros H. unfold sliceIndex. destruct (nth_error l i) eqn:E; eauto.
  apply nth_error_None in E. lia.
Qed.

Lemma dayRule_some r pts : exists p, dayRule r pts = Some p.
Proof.
  unfold dayRule. destruct (GoInt.len _ =? 3) eqn:E; eauto.
  apply Z.eqb_eq in E. unfold GoInt.len in E.
  destruct (sliceIndex_some (Strings.Split (PurchaseDate r) "-") 2) as [x ->]; [lia|].
  destruct (Atoi x). eauto.
Qed.

Lemma timeRule_some r pts : exists p, timeRule r pts = Some p.
Proof.
  unfold timeRule. destruct (GoInt.len _ =? 2) eqn:E; eauto.
  apply Z.eqb_eq in E. unfold GoInt.len in E.
  destruct (sliceIndex_some (Strings.Split (PurchaseTime r) ":") 0) as [x ->]; [lia|].
  destruct (sliceIndex_some (Strings.Split (PurchaseTime r) ":") 1) as [y ->]; [lia|].
  destruct (Atoi x), (Atoi y). eauto.
Qed.

Lemma calculatePoints_some indefinite r :
  exists p, calculatePoints indefinite r = Some p.
Proof.
  unfold calculatePoints.
  destruct (dayRule_some r (itemsLoop indefinite (Items r)
              (pairsRule r (totalRules r (retailerRule r 0))))) as [p ->].
  apply timeRule_some.
Qed.


(** ** The loop over the items *)

Lemma rem3_mod3 n : (GoInt.rem (Z.of_nat n) 3 =? 0) = (Z.of_nat n mod 3 =? 0).
Proof. unfold GoInt.rem. rewrite Z.rem_mod_nonneg; auto; lia. Qed.

Lemma itemBody_bonus indefinite p item :
  itemBody indefinite (GoInt.wrap p) item
  = GoInt.wrap (p + descriptionBonus indefinite item).
Proof.
  unfold itemBody, descriptionBonus, Bytes.len. rewrite rem3_mod3.
  destruct (_ =? 0).
  - destruct (ParseFloat (Price item)) as [price e]. simpl.
    unfold GoInt.add. apply wrap_add_l.
  - f_equal. lia.
Qed.

Lemma itemsLoop_sum indefinite items p :
  itemsLoop indefinite items (GoInt.wrap p)
  = GoInt.wrap (p + sumZ (map (descriptionBonus indefinite) items)).
Proof.
  unfold itemsLoop. revert p. induction items as [|item items IH]; intros p; simpl.
  - f_equal. lia.
  - rewrite itemBody_bonus, IH. f_equal. lia.
Qed.

Lemma pointsBeforeItems_wrap r :
  pointsBeforeItems r = GoInt.wrap (pointsBeforeItems r).
Proof. unfold pointsBeforeItems, pairsRule, GoInt.add. now rewrite wrap_wrap. Qed.

Lemma pointsAfterItems_range indefinite r :
  GoInt.in_range (pointsAfterItems indefinite r).
Proof.
  unfold pointsAfterItems. rewrite pointsBeforeItems_wrap, itemsLoop_sum.
  apply wrap_range.
Qed.

Lemma dayRule_range r p q :
  GoInt.in_range p -> dayRule r p = Some q -> GoInt.in_range q.
Proof.
  unfold dayRule. intros Hp.
  destruct (_ =? 3); [|intros [= <-]; auto].
  destruct (sliceIndex _ 2); [|discriminate].
  destruct (Atoi s) as [day e]. destruct (negb _); intros [= <-]; auto.
  apply wrap_range.
Qed.

Lemma pointsBeforeTime_range indefinite r p :
  pointsBeforeTime indefinite r = Some p -> GoInt.in_range p.
Proof. apply dayRule_range, pointsAfterItems_range. Qed.

(** C1: the receipt of the example (retailer Target, total 35.35, bought
    on 2022-01-01 at 13:01, five items) scores exactly 28 points: 6 for
    the retailer name, none for the total, 10 for the two pairs of
    items, 3 and 3 for the two descriptions whose trimmed length is a
    multiple of 3, 6 for the odd day, none for the time. *)
Theorem C1_target_receipt_scores_28 (indefinite : float64 -> Z) :
  calculatePoints indefinite targetReceipt = Some 28 /\
  retailerRule targetReceipt 0 = 6 /\
  totalRules targetReceipt 6 = 6 /\
  pairsRule targetReceipt 6 = 16 /\
  map (descriptionBonus indefinite) (Items targetReceipt) = [0; 3; 0; 0; 3] /\
  itemsLoop indefinite (Items targetReceipt) 16 = 22 /\
  dayRule targetReceipt 22 = Some 28 /\
  timeRule targetReceipt 28 = Some 28.
Proof. repeat split; vm_compute; reflexivity. Qed.

(** C4: the points after the loop over the items are the points before
    it plus, for every item, the price bonus [int(math.Ceil(price * 0.2))]
    when the length of its trimmed description is a multiple of 3 and
    nothing otherwise; a description that trims to the empty string has
    length 0 and earns the bonus. *)
Theorem C4_description_multiple_of_3 (indefinite : float64 -> Z) (r : Receipt) :
  pointsAfterItems indefinite r
  = GoInt.wrap (pointsBeforeItems r
                + sumZ (map (descriptionBonus indefinite) (Items r))) /\
  calculatePoints indefinite r
  = match dayRule r (pointsAfterItems indefinite r) with
    | Some p => timeRule r p
    | None => None
    end /\
  (forall item,
      descriptionBonus indefinite item
      = if Z.of_nat (String.length (Strings.TrimSpace (ShortDescription item)))
           mod 3 =? 0
        then Math.toInt indefinite
               (Math.Ceil (Math.mul (fst (ParseFloat (Price item))) Math.f0_2))
        else 0) /\
  (forall item,
      Strings.TrimSpace (ShortDescription item) = ""%string ->
      descriptionBonus indefinite item
      = priceBonus indefinite (fst (ParseFloat (Price item)))).
Proof.
  split; [|split; [|split]].
  - unfold pointsAfterItems. rewrite pointsBeforeItems_wrap at 1.
    apply itemsLoop_sum.
  - reflexivity.
  - reflexivity.
  - intros item E. unfold descriptionBonus. rewrite E. reflexivity.
Qed.


(** ** The time of purchase *)

Lemma timeRule_two_parts r h m pts :
  Strings.Split (PurchaseTime r) ":" = [h; m] ->
  timeRule r pts
  = Some (let timeVal := timeValue (fst (Atoi h)) (fst (Atoi m)) in
          if (840 <=? timeVal) && (timeVal <? 960)
          then GoInt.add pts 10 else pts).
Proof.
  intros E. unfold timeRule. rewrite E. simpl.
  destruct (Atoi h), (Atoi m). reflexivity.
Qed.

Lemma calculatePoints_time indefinite r p0 :
  pointsBeforeTime indefinite r = Some p0 ->
  calculatePoints indefinite r = timeRule r p0.
Proof.
  unfold pointsBeforeTime, pointsAfterItems, pointsBeforeItems, calculatePoints.
  intros ->. reflexivity.
Qed.

Lemma timeValue_exact hour minute :
  0 <= hour < 24 -> 0 <= minute < 60 ->
  timeValue hour minute = hour * 60 + minute.
Proof.
  intros Hh Hm. unfold timeValue, GoInt.add, GoInt.mul.
  rewrite wrap_add_l. apply wrap_id.
  unfold GoInt.in_range, GoInt.minInt, GoInt.maxInt. lia.
Qed.

(** Beyond the hours of a clock the product wraps around: this hour is
    14 plus 2^62, and sixty times it is 840 again. *)
Example timeValue_wraps : timeValue 4611686018427387918 0 = 840.
Proof. reflexivity. Qed.

(** C6: when the time of purchase splits at [:] into two parts, the
    scorer adds 10 points to what the earlier rules gave exactly when
    [hour*60 + minute] is at least 840 and below 960; 14:00 and 15:59
    earn the 10 points, 13:59 and 16:00 do not.  For an hour below 24
    and a minute below 60 the value is computed without wrap-around. *)
Theorem C6_afternoon_window (indefinite : float64 -> Z) (r : Receipt) (p0 : Z) :
  pointsBeforeTime indefinite r = Some p0 ->
  (forall h m,
      Strings.Split (PurchaseTime r) ":" = [h; m] ->
      let timeVal := timeValue (fst (Atoi h)) (fst (Atoi m)) in
      calculatePoints indefinite r
      = Some (if (840 <=? timeVal) && (timeVal <? 960)
              then GoInt.add p0 10 else p0)) /\
  GoInt.add p0 10 <> p0 /\
  (PurchaseTime r = "14:00"%string \/ PurchaseTime r = "15:59"%string ->
   calculatePoints indefinite r = Some (GoInt.add p0 10)) /\
  (PurchaseTime r = "13:59"%string \/ PurchaseTime r = "16:00"%string ->
   calculatePoints indefinite r = Some p0) /\
  (forall hour minute,
      0 <= hour < 24 -> 0 <= minute < 60 ->
      timeValue hour minute = hour * 60 + minute).
Proof.
  intros Hp0. rewrite (calculatePoints_time _ _ _ Hp0).
  repeat split.
  - intros h m E. apply timeRule_two_parts, E.
  - apply add_ne; [lia|]. eapply pointsBeforeTime_range, Hp0.
  - intros [E|E]; unfold timeRule; rewrite E; reflexivity.
  - intros [E|E]; unfold timeRule; rewrite E; reflexivity.
  - apply timeValue_exact.
Qed.

Lemma C6_afternoon_window_witness :
  pointsBeforeTime amd64 (withTime targetReceipt "14:00") = Some 28 /\
  calculatePoints amd64 (withTime targetReceipt "14:00") = Some 38.
Proof.
  split; [reflexivity|].
  apply (proj1 (proj2 (proj2
    (C6_afternoon_window amd64 (withTime targetReceipt "14:00") 28 eq_refl)))).
  left. reflexivity.
Defined.

(** ** The total *)

(** C7: the round-dollar test and the quarter test are made one after
    the other on the same total, each adding its own points: for the
    total 100.00 both add, 50 and then 25, which is 75; for 12.25 only
    the quarter test adds, for 35.35 neither. *)
Theorem C7_round_dollar_and_quarter (r : Receipt) (pts : Z) :
  (totalRules r pts
   = let total := fst (ParseFloat (Total r)) in
     let afterRound := if Math.eq (Math.Mod total Math.f1) Math.f0
                       then GoInt.add pts 50 else pts in
     if Math.eq (Math.Mod total Math.f0_25) Math.f0
     then GoInt.add afterRound 25 else afterRound) /\
  (Total r = "100.00"%string ->
   totalRules r pts = GoInt.add (GoInt.add pts 50) 25 /\
   totalRules r pts = GoInt.wrap (pts + 75)) /\
  (Total r = "12.25"%string -> totalRules r pts = GoInt.add pts 25) /\
  (Total r = "35.35"%string -> totalRules r pts = pts).
Proof.
  repeat split.
  - unfold totalRules. destruct (ParseFloat (Total r)). reflexivity.
  - unfold totalRules. rewrite H. reflexivity.
  - unfold totalRules. rewrite H. simpl. unfold GoInt.add.
    rewrite wrap_add_l. f_equal. lia.
  - intros E. unfold totalRules. rewrite E. reflexivity.
  - intros E. unfold totalRules. rewrite E. reflexivity.
Qed.

Lemma C7_round_dollar_and_quarter_witness :
  totalRules (withTotal targetReceipt "100.00") 6 = 81.
Proof.
  destruct (C7_round_dollar_and_quarter (withTotal targetReceipt "100.00") 6)
    as (_ & H & _).
  destruct (H eq_refl) as [_ ->]. reflexivity.
Defined.


(** ** Fields that do not parse *)

Lemma dayRule_three_parts r a b c pts :
  Strings.Split (PurchaseDate r) "-" = [a; b; c] ->
  dayRule r pts
  = Some (if negb (GoInt.rem (fst (Atoi c)) 2 =? 0) then GoInt.add pts 6 else pts).
Proof.
  intros E. unfold dayRule. rewrite E. simpl. destruct (Atoi c). reflexivity.
Qed.

Lemma totalRules_zero r pts :
  fst (ParseFloat (Total r)) = S754_zero false ->
  totalRules r pts = GoInt.add (GoInt.add pts 50) 25.
Proof.
  unfold totalRules. destruct (ParseFloat (Total r)) as [total e]. simpl.
  intros ->. reflexivity.
Qed.

(** C3, the claim as it stands fails: the total [abc] does not parse,
    and the two rules of the total then add 75 points, not none. *)
Lemma C3_unparsed_total_scores_75 :
  snd (ParseFloat (Total (withTotal targetReceipt "abc"))) = Some ErrSyntax /\
  totalRules (withTotal targetReceipt "abc") 0 = 75 /\
  calculatePoints amd64 (withTotal targetReceipt "abc") = Some 103 /\
  calculatePoints amd64 targetReceipt = Some 28.
Proof. repeat split; vm_compute; reflexivity. Qed.

(** A day too large for an [int] fails to parse as well, with the
    greatest [int] as its value, which is odd and earns the 6 points. *)
Example unparsed_day_out_of_range :
  Atoi "99999999999999999999" = (GoInt.maxInt, Some ErrRange) /\
  dayRule (withDate targetReceipt "2022-01-99999999999999999999") 0 = Some 6.
Proof. split; vm_compute; reflexivity. Qed.

(** C3, amended: the scorer returns points for every receipt.  A number
    that fails to parse as malformed text counts as 0 in the rule that
    reads it: such a price adds no points, such a day is even and adds
    none, such an hour or minute is 0 in [hour*60 + minute]; such a
    total is 0, a round amount and a multiple of 0.25, and adds 50 and
    25. *)
Theorem C3_unparsed_numbers_count_as_zero (indefinite : float64 -> Z) (r : Receipt) :
  (exists p, calculatePoints indefinite r = Some p) /\
  (forall item pts,
      snd (ParseFloat (Price item)) = Some ErrSyntax ->
      priceBonus indefinite (fst (ParseFloat (Price item))) = 0 /\
      descriptionBonus indefinite item = 0 /\
      (GoInt.in_range pts -> itemBody indefinite pts item = pts)) /\
  (forall a b c pts,
      Strings.Split (PurchaseDate r) "-" = [a; b; c] ->
      snd (Atoi c) = Some ErrSyntax ->
      dayRule r pts = Some pts) /\
  (forall h m pts,
      Strings.Split (PurchaseTime r) ":" = [h; m] ->
      (snd (Atoi h) = Some ErrSyntax ->
       timeRule r pts
       = Some (let timeVal := timeValue 0 (fst (Atoi m)) in
               if (840 <=? timeVal) && (timeVal <? 960)
               then GoInt.add pts 10 else pts)) /\
      (snd (Atoi m) = Some ErrSyntax ->
       timeRule r pts
       = Some (let timeVal := timeValue (fst (Atoi h)) 0 in
               if (840 <=? timeVal) && (timeVal <? 960)
               then GoInt.add pts 10 else pts)) /\
      (snd (Atoi h) = Some ErrSyntax -> snd (Atoi m) = Some ErrSyntax ->
       timeRule r pts = Some pts)) /\
  (forall pts,
      snd (ParseFloat (Total r)) = Some ErrSyntax ->
      totalRules r pts = GoInt.add (GoInt.add pts 50) 25).
Proof.
  split; [apply calculatePoints_some|].
  split; [|split; [|split]].
  - intros item pts E. apply ParseFloat_syntax in E.
    assert (Hb : priceBonus indefinite (fst (ParseFloat (Price item))) = 0)
      by (rewrite E; reflexivity).
    split; [exact Hb|]. split.
    + unfold descriptionBonus. rewrite Hb. now destruct (_ =? 0).
    + intros Hr. unfold itemBody.
      destruct (_ =? 0); [|reflexivity].
      destruct (ParseFloat (Price item)) as [price e]. simpl in Hb. rewrite Hb.
      unfold GoInt.add. rewrite Z.add_0_r. now apply wrap_id.
  - intros a b c pts E Hc. rewrite (dayRule_three_parts _ _ _ _ _ E).
    rewrite (Atoi_syntax _ Hc). reflexivity.
  - intros h m pts E. rewrite (timeRule_two_parts _ _ _ _ E).
    split; [|split].
    + intros Hh. now rewrite (Atoi_syntax _ Hh).
    + intros Hm. now rewrite (Atoi_syntax _ Hm).
    + intros Hh Hm. rewrite (Atoi_syntax _ Hh), (Atoi_syntax _ Hm). reflexivity.
  - intros pts E. apply totalRules_zero, ParseFloat_syntax, E.
Qed.

Lemma C3_unparsed_numbers_count_as_zero_witness :
  totalRules (withTotal targetReceipt "abc") 6 = 81 /\
  dayRule (withDate targetReceipt "2022-01-x1") 22 = Some 22.
Proof.
  pose proof (C3_unparsed_numbers_count_as_zero amd64 (withTotal targetReceipt "abc"))
    as (_ & _ & _ & _ & Ht).
  pose proof (C3_unparsed_numbers_count_as_zero amd64 (withDate targetReceipt "2022-01-x1"))
    as (_ & _ & Hd & _).
  split.
  - rewrite (Ht 6 eq_refl). reflexivity.
  - apply (Hd "2022"%string "01"%string "x1"%string 22); reflexivity.
Defined.


(** ** The validator *)

Lemma validateItems_uniform items :
  validateItems items = None \/ validateItems items = invalidReceipt.
Proof.
  induction items as [|item items IH]; simpl; auto.
  repeat (destruct (_ : bool); simpl; auto).
Qed.

Lemma validateItems_accepts items :
  validateItems items = None <-> Forall itemPassed items.
Proof.
  induction items as [|item items IH]; simpl.
  - split; auto.
  - rewrite Forall_cons_iff, <- IH. unfold itemPassed.
    destruct (isEmpty (ShortDescription item)); simpl;
      [split; [discriminate | intuition discriminate]|].
    destruct (isEmpty (Price item)); simpl;
      [split; [discriminate | intuition discriminate]|].
    destruct (Regexp.MatchString ShortDescriptionPattern _); simpl;
      [|split; [discriminate | intuition discriminate]].
    destruct (Regexp.MatchString totalPricePattern _); simpl;
      [|split; [discriminate | intuition discriminate]].
    tauto.
Qed.

Lemma validateReceipt_uniform r :
  validateReceipt r = None \/ validateReceipt r = invalidReceipt.
Proof.
  unfold validateReceipt.
  repeat (destruct (_ : bool); simpl; auto).
  apply validateItems_uniform.
Qed.

Lemma validateReceipt_accepts r :
  validateReceipt r = None <->
  (isEmpty (Retailer r) = false /\ isEmpty (PurchaseDate r) = false /\
   isEmpty (PurchaseTime r) = false /\ isEmpty (Total r) = false /\
   Items r <> []) /\
  Regexp.MatchString retailerPattern (Retailer r) = true /\
  (exists f, Time.Parse Time.layoutDate (PurchaseDate r) = Some f) /\
  (exists f, Time.Parse Time.layoutClock (PurchaseTime r) = Some f) /\
  Regexp.MatchString totalPricePattern (Total r) = true /\
  Forall itemPassed (Items r).
Proof.
  unfold validateReceipt. rewrite <- validateItems_accepts.
  assert (Hl : (GoInt.len (Items r) =? 0) = false <-> Items r <> []).
  { unfold GoInt.len. destruct (Items r); simpl; split; try congruence; auto. }
  destruct (isEmpty (Retailer r)); simpl; [split; [discriminate|intuition discriminate]|].
  destruct (isEmpty (PurchaseDate r)); simpl; [split; [discriminate|intuition discriminate]|].
  destruct (isEmpty (PurchaseTime r)); simpl; [split; [discriminate|intuition discriminate]|].
  destruct (isEmpty (Total r)); simpl; [split; [discriminate|intuition discriminate]|].
  destruct (GoInt.len (Items r) =? 0); simpl;
    [split; [discriminate|intros ((_ & _ & _ & _ & H) & _); apply Hl in H; discriminate]|].
  destruct (Regexp.MatchString retailerPattern _); simpl;
    [|split; [discriminate|intuition discriminate]].
  destruct (Time.Parse Time.layoutDate _) as [fd|]; simpl;
    [|split; [discriminate|intros (_ & _ & [f Hf] & _); discriminate]].
  destruct (Time.Parse Time.layoutClock _) as [fc|]; simpl;
    [|split; [discriminate|intros (_ & _ & _ & [f Hf] & _); discriminate]].
  destruct (Regexp.MatchString totalPricePattern (Total r)); simpl;
    [|split; [discriminate|intuition discriminate]].
  split.
  - intros H. repeat split; eauto. now apply Hl.
  - tauto.
Qed.

Lemma validateReceipt_rejects r :
  validateReceipt r <> None -> validateReceipt r = invalidReceipt.
Proof. destruct (validateReceipt_uniform r); tauto. Qed.

Lemma not_twoDecimals s :
  Regexp.MatchString totalPricePattern s = false -> ~ twoDecimals s.
Proof. intros H Ht. apply totalPricePattern_twoDecimals in Ht. congruence. Qed.

(** C8: a receipt is rejected, with the one error of an invalid receipt,
    when its total is not one or more digits, a dot and two digits, and
    when the price of one of its items is not; 12.5 and 12.500 are not
    of that form, nor is an amount with a sign or an exponent.  The
    validator has no other error. *)
Theorem C8_two_decimal_amounts (r : Receipt) :
  (~ twoDecimals (Total r) -> validateReceipt r = invalidReceipt) /\
  (forall item,
      In item (Items r) -> ~ twoDecimals (Price item) ->
      validateReceipt r = invalidReceipt) /\
  (validateReceipt r = None \/ validateReceipt r = invalidReceipt) /\
  Forall (fun s => ~ twoDecimals s)
    ["12.5"; "12.500"; "+12.50"; "-12.50"; "1e2"; "1.25e1"; ".50"; "12"]%string.
Proof.
  split; [|split; [|split]].
  - intros H. apply validateReceipt_rejects. intros Hv.
    apply validateReceipt_accepts in Hv as (_ & _ & _ & _ & Ht & _).
    apply H, totalPricePattern_twoDecimals, Ht.
  - intros item Hin H. apply validateReceipt_rejects. intros Hv.
    apply validateReceipt_accepts in Hv as (_ & _ & _ & _ & _ & Hitems).
    rewrite List.Forall_forall in Hitems. destruct (Hitems item Hin) as (_ & _ & _ & Hp).
    apply H, totalPricePattern_twoDecimals, Hp.
  - apply validateReceipt_uniform.
  - repeat constructor; apply not_twoDecimals; reflexivity.
Qed.

Lemma C8_two_decimal_amounts_witness :
  validateReceipt (withTotal targetReceipt "12.5") = invalidReceipt.
Proof.
  apply (proj1 (C8_two_decimal_amounts (withTotal targetReceipt "12.5"))).
  apply not_twoDecimals. reflexivity.
Defined.


(** ** The date of purchase *)

Lemma isDigit_bounds c : isDigit c = true -> 0 <= code c - 48 <= 9.
Proof.
  unfold isDigit, between. intros H. apply andb_prop in H as [H1 H2].
  apply Z.leb_le in H1, H2. lia.
Qed.

Lemma getnum_fixed s n rest :
  Time.getnum s true = Some (n, rest) ->
  exists a b, s = a :: b :: rest /\ isDigit a = true /\ isDigit b = true /\
              n = (code a - 48) * 10 + (code b - 48).
Proof.
  unfold Time.getnum. destruct s as [|a [|b s]]; try discriminate.
  - destruct (isDigit a); discriminate.
  - destruct (isDigit a) eqn:Ha; [|discriminate].
    destruct (isDigit b) eqn:Hb; [|discriminate].
    intros [= <- <-]. exists a, b. auto.
Qed.

Lemma daysIn_daysOfMonth y m :
  0 <= y -> 1 <= m <= 12 -> Time.daysIn m y = daysOfMonth y m.
Proof.
  intros Hy Hm. unfold Time.daysIn, daysOfMonth, Time.isLeap, leapYear.
  rewrite !Z.rem_mod_nonneg by lia.
  assert (Hc : m = 1 \/ m = 2 \/ m = 3 \/ m = 4 \/ m = 5 \/ m = 6 \/ m = 7 \/
               m = 8 \/ m = 9 \/ m = 10 \/ m = 11 \/ m = 12) by lia.
  destruct Hc as [->|[->|[->|[->|[->|[->|[->|[->|[->|[->|[->| ->]]]]]]]]]]];
    reflexivity.
Qed.

Lemma Parse_layoutDate s f :
  Time.Parse Time.layoutDate s = Some f -> calendarDate s.
Proof.
  unfold Time.Parse, Time.layoutDate. rewrite <- (str_bytes s) at 2.
  generalize (bytes s) as l. intros l.
  destruct (Time.parseChunks _ l _) as [g|] eqn:E; [|discriminate].
  destruct (_ || _) eqn:Hday; [discriminate|]. intros _.
  apply orb_false_elim in Hday as [Hd1 Hd2].
  apply Z.ltb_ge in Hd1, Hd2.
  cbn [Time.parseChunks Time.parseChunk] in E.
  destruct l as [|y1 [|y2 [|y3 [|y4 l]]]]; try discriminate.
  destruct (isDigit y1 && isDigit y2 && isDigit y3 && isDigit y4) eqn:Hy;
    [|discriminate].
  apply andb_prop in Hy as [Hy Hy4]. apply andb_prop in Hy as [Hy Hy3].
  apply andb_prop in Hy as [Hy1 Hy2].
  destruct l as [|c1 l]; [discriminate|].
  destruct (Ascii.eqb c1 "-") eqn:Hc1; [|discriminate].
  apply Ascii.eqb_eq in Hc1. subst c1.
  destruct (Time.getnum l true) as [[m rest]|] eqn:Hm; [|discriminate].
  apply getnum_fixed in Hm as (m1 & m2 & -> & Hm1 & Hm2 & ->).
  destruct (_ || _) eqn:Hrange; [discriminate|].
  apply orb_false_elim in Hrange as [Hr1 Hr2].
  apply Z.leb_gt in Hr1. apply Z.ltb_ge in Hr2.
  destruct rest as [|c2 rest]; [discriminate|].
  destruct (Ascii.eqb c2 "-") eqn:Hc2; [|discriminate].
  apply Ascii.eqb_eq in Hc2. subst c2.
  destruct (Time.getnum rest true) as [[d rest']|] eqn:Hd; [|discriminate].
  apply getnum_fixed in Hd as (d1 & d2 & -> & Hdd1 & Hdd2 & ->).
  destruct rest'; [|discriminate].
  injection E as <-. cbn [Time.day Time.month Time.year] in Hd1, Hd2.
  exists y1, y2, y3, y4, m1, m2, d1, d2.
  split; [reflexivity|]. split; [repeat constructor; auto|].
  cbv beta zeta. unfold Time.digitVal in Hd2.
  pose proof (isDigit_bounds _ Hy1). pose proof (isDigit_bounds _ Hy2).
  pose proof (isDigit_bounds _ Hy3). pose proof (isDigit_bounds _ Hy4).
  rewrite daysIn_daysOfMonth in Hd2 by lia.
  replace (((code y1 - 48) * 10 + (code y2 - 48)) * 100
           + ((code y3 - 48) * 10 + (code y4 - 48)))
    with ((((code y1 - 48) * 10 + (code y2 - 48)) * 10 + (code y3 - 48)) * 10
          + (code y4 - 48)) by lia.
  lia.
Qed.

(** C5: a receipt the validator accepts has a date of purchase of the
    form [YYYY-MM-DD], ten bytes, with a month from 01 to 12 and a day
    that the month of that year has; nothing may precede or follow, and
    2022-13-01 is rejected, as is any other way of writing a date. *)
Theorem C5_purchase_date_is_calendar_date (r : Receipt) :
  (validateReceipt r = None -> calendarDate (PurchaseDate r)) /\
  (~ calendarDate (PurchaseDate r) -> validateReceipt r = invalidReceipt) /\
  (In (PurchaseDate r)
      ["2022-13-01"; "2022-00-10"; "2022-02-30"; "2023-02-29"; "2022-01-00";
       "2022-1-01"; "2022-01-1"; "22-01-01"; "2022-01-01 "; " 2022-01-01";
       "2022-01-01T13:01"; "2022/01/01"; "01-01-2022"; "20220101";
       "Jan 1, 2022"]%string ->
   validateReceipt r = invalidReceipt).
Proof.
  assert (H1 : validateReceipt r = None -> calendarDate (PurchaseDate r)).
  { intros Hv. apply validateReceipt_accepts in Hv as (_ & _ & [f Hf] & _).
    eapply Parse_layoutDate, Hf. }
  split; [exact H1|]. split.
  - intros Hn. apply validateReceipt_rejects. tauto.
  - intros Hin. apply validateReceipt_rejects. intros Hv.
    apply validateReceipt_accepts in Hv as (_ & _ & [f Hf] & _).
    simpl in Hin.
    repeat (destruct Hin as [Hin|Hin]; [rewrite <- Hin in Hf; discriminate|]).
    exact Hin.
Qed.

Lemma C5_purchase_date_is_calendar_date_witness :
  calendarDate (PurchaseDate targetReceipt) /\
  validateReceipt (withDate targetReceipt "2022-13-01") = invalidReceipt.
Proof.
  split.
  - apply (proj1 (C5_purchase_date_is_calendar_date targetReceipt)). reflexivity.
  - apply (proj2 (proj2 (C5_purchase_date_is_calendar_date
                           (withDate targetReceipt "2022-13-01")))).
    left. reflexivity.
Defined.


(** ** Descriptions of white space *)

Lemma space_asciiSpace c : Regexp.space c = true -> Strings.asciiSpace c = true.
Proof.
  unfold Regexp.space, Strings.asciiSpace, between, isByte.
  intros H. repeat (apply orb_prop in H as [H|H]);
    apply Z.eqb_eq in H; rewrite H; reflexivity.
Qed.

Lemma trimLeft_spaces l fuel :
  (length l <= fuel)%nat ->
  Forall (fun c => Strings.asciiSpace c = true) l ->
  Strings.trimLeft fuel l = [].
Proof.
  revert l. induction fuel as [|fuel IH]; intros l Hlen Hall.
  - destruct l; [reflexivity | simpl in Hlen; lia].
  - destruct l as [|c l]; [reflexivity|].
    apply Forall_cons_iff in Hall as [Hc Hall].
    simpl in Hlen |- *. rewrite Hc. simpl. rewrite drop_0. apply IH; [lia | exact Hall].
Qed.

Lemma TrimSpace_blank d : blank d -> Strings.TrimSpace d = ""%string.
Proof.
  intros [_ Hall]. unfold Strings.TrimSpace.
  rewrite trimLeft_spaces; [reflexivity | lia |].
  eapply Forall_impl; [exact Hall|]. apply space_asciiSpace.
Qed.

Lemma bytes_nil s : bytes s = [] -> s = ""%string.
Proof. destruct s; [reflexivity | discriminate]. Qed.

Lemma blank_description_matches d :
  blank d -> Regexp.MatchString ShortDescriptionPattern d = true.
Proof.
  intros [Hne Hall]. unfold Regexp.MatchString, ShortDescriptionPattern.
  apply matchBytes_lang, lang_plus_class. split.
  - intros E. apply Hne, bytes_nil, E.
  - eapply Forall_impl; [exact Hall|]. simpl. intros c ->.
    now rewrite orb_true_r.
Qed.

Lemma isEmpty_false s : s <> ""%string -> isEmpty s = false.
Proof. unfold isEmpty. intros H. now apply String.eqb_neq. Qed.

Lemma sumZ_app l1 l2 : sumZ (l1 ++ l2) = sumZ l1 + sumZ l2.
Proof. induction l1; simpl; lia. Qed.

Lemma pointsAfterItems_sum indefinite r :
  pointsAfterItems indefinite r
  = GoInt.wrap (pointsBeforeItems r
                + sumZ (map (descriptionBonus indefinite) (Items r))).
Proof.
  unfold pointsAfterItems. rewrite pointsBeforeItems_wrap at 1.
  apply itemsLoop_sum.
Qed.

(** C10: replacing the description of an item of an accepted receipt by
    one that is white space only, such as three spaces, leaves the
    receipt accepted: the description is not empty and matches
    [^[\w\s\-]+$].  It trims to the empty string, whose length 0 is a
    multiple of 3, so the scorer adds the price bonus of that item. *)
Theorem C10_blank_description_scores
        (indefinite : float64 -> Z) (r : Receipt) (k : nat) (item : Item) (d : string) :
  validateReceipt r = None ->
  Items r !! k = Some item ->
  blank d ->
  let r' := withDescription r k d in
  let bonus := priceBonus indefinite (fst (ParseFloat (Price item))) in
  validateReceipt r' = None /\
  Items r' !! k = Some {| ShortDescription := d; Price := Price item |} /\
  Strings.TrimSpace d = ""%string /\
  descriptionBonus indefinite {| ShortDescription := d; Price := Price item |}
  = bonus /\
  pointsAfterItems indefinite r'
  = GoInt.wrap (pointsBeforeItems r'
                + (sumZ (map (descriptionBonus indefinite) (take k (Items r)))
                   + bonus
                   + sumZ (map (descriptionBonus indefinite) (drop (S k) (Items r))))).
Proof.
  intros Hv Hk Hd r' bonus.
  assert (Hlt : (k < length (Items r))%nat) by (eapply lookup_lt_Some, Hk).
  assert (Hitems : Items r' = <[k := {| ShortDescription := d; Price := Price item |}]> (Items r))
    by (unfold r', withDescription; simpl; now rewrite Hk).
  assert (Htrim := TrimSpace_blank d Hd).
  assert (Hbonus : descriptionBonus indefinite
                     {| ShortDescription := d; Price := Price item |} = bonus)
    by (unfold descriptionBonus; simpl; rewrite Htrim; reflexivity).
  apply validateReceipt_accepts in Hv
    as ((He1 & He2 & He3 & He4 & Hne) & Hret & Hdate & Htime & Htot & Hall).
  repeat split.
  - apply validateReceipt_accepts. rewrite Hitems.
    split; [repeat split; auto|].
    + intros E. apply (f_equal (@length Item)) in E.
      rewrite length_insert in E. simpl in E. lia.
    + repeat split; auto.
      apply Forall_insert; [exact Hall|].
      pose proof (proj1 (Forall_lookup _ _) Hall k item Hk) as (_ & Hp1 & _ & Hp2).
      repeat split; simpl; auto.
      * apply isEmpty_false, Hd.
      * now apply blank_description_matches.
  - rewrite Hitems. now apply list_lookup_insert_eq.
  - exact Htrim.
  - exact Hbonus.
  - rewrite pointsAfterItems_sum, Hitems, insert_take_drop by exact Hlt.
    rewrite map_app, sumZ_app. simpl. rewrite Hbonus. f_equal. lia.
Qed.

Lemma C10_blank_description_scores_witness :
  validateReceipt (withDescription targetReceipt 4 "   ") = None /\
  calculatePoints amd64 (withDescription targetReceipt 4 "   ") = Some 28.
Proof.
  split; [|reflexivity].
  refine (proj1 (C10_blank_description_scores amd64 targetReceipt 4
                   {| ShortDescription := "   Klarbrunn 12-PK 12 FL OZ  ";
                      Price := "12.00" |} "   " eq_refl eq_refl _)).
  split; [discriminate | repeat constructor].
Defined.


(** ** The identifier in the path *)

Lemma bytes_app a b : bytes (a ++ b)%string = bytes a ++ bytes b.
Proof. unfold bytes. induction a as [|c a IH]; simpl; [reflexivity | now rewrite IH]. Qed.

Lemma hasPrefix_app p s : hasPrefix p (p ++ s) = Some s.
Proof.
  induction p as [|c p IH]; simpl; [reflexivity|].
  now rewrite Ascii.eqb_refl.
Qed.

Lemma span_run cls g c rest :
  Forall (fun x => cls x = true) g -> cls c = false ->
  Regexp.span cls (g ++ c :: rest) = (g, c :: rest).
Proof.
  intros Hg Hc. induction Hg as [|x g Hx _ IH]; simpl.
  - now rewrite Hc.
  - now rewrite Hx, IH.
Qed.

Lemma extractUUID_pointsPath id :
  id <> ""%string -> Forall (fun c => uuidClass c = true) (bytes id) ->
  extractUUID (pointsPath id) = id.
Proof.
  intros Hne Hall. unfold extractUUID, pointsPath.
  rewrite !bytes_app.
  assert (Hm : Regexp.submatchHere (bytes "/receipts/") uuidClass (bytes "/points")
                 (bytes "/receipts/" ++ bytes id ++ bytes "/points")
               = Some (bytes id)).
  { unfold Regexp.submatchHere. rewrite hasPrefix_app.
    change (bytes "/points") with ("/"%char :: bytes "points").
    rewrite span_run by (auto; reflexivity).
    destruct (bytes id) eqn:E; [apply bytes_nil in E; contradiction|].
    change ("/"%char :: bytes "points") with (bytes "/points" ++ []).
    now rewrite hasPrefix_app. }
  change (bytes "/receipts/" ++ bytes id ++ bytes "/points")
    with ("/"%char :: bytes "receipts/" ++ bytes id ++ bytes "/points") in *.
  cbn [Regexp.FindStringSubmatch]. rewrite Hm. apply str_bytes.
Qed.

Lemma uuidShape_class i s :
  uuidShape i s = true -> Forall (fun c => uuidClass c = true) s.
Proof.
  revert i. induction s as [|c s IH]; intros i H; [constructor|].
  simpl in H. apply andb_prop in H as [Hc Hs].
  constructor; [|eapply IH, Hs].
  unfold uuidClass. destruct (_ || _) in Hc.
  - rewrite Hc. now rewrite orb_true_r.
  - unfold hexLower in Hc. apply orb_prop in Hc as [-> | ->];
      [now rewrite orb_true_r | reflexivity].
Qed.

Lemma isUUIDString_path id :
  isUUIDString id = true -> extractUUID (pointsPath id) = id.
Proof.
  intros H. apply extractUUID_pointsPath.
  - intros ->. discriminate.
  - eapply uuidShape_class, H.
Qed.

(** ** The store *)

Lemma processReceiptHandler_accepted indefinite r id st :
  validateReceipt r = None ->
  exists p,
    calculatePoints indefinite r = Some p /\
    processReceiptHandler indefinite (Some r) id st
    = Some ({| receipts := <[id := r]> (receipts st);
               points := <[id := p]> (points st) |}, ResponseID id).
Proof.
  intros Hv. destruct (calculatePoints_some indefinite r) as [p Hp].
  exists p. split; [exact Hp|].
  unfold processReceiptHandler. now rewrite Hv, Hp.
Qed.

(** C9: an accepted receipt stored under the string of a UUID can be
    read back: the handler answers with the identifier, and the lookup
    of the path of that identifier answers with the very points the
    scorer computed when the receipt was stored; receipts stored
    afterwards under other identifiers do not change that. *)
Theorem C9_store_then_lookup
        (indefinite : float64 -> Z) (r : Receipt) (id : string) (st : Store) :
  validateReceipt r = None ->
  isUUIDString id = true ->
  exists (p : Z) (st' : Store),
    calculatePoints indefinite r = Some p /\
    processReceiptHandler indefinite (Some r) id st = Some (st', ResponseID id) /\
    getPointsHandler (pointsPath id) st' = ResponsePoints p /\
    (forall r2 id2 st2 resp,
        id2 <> id ->
        processReceiptHandler indefinite r2 id2 st' = Some (st2, resp) ->
        getPointsHandler (pointsPath id) st2 = ResponsePoints p).
Proof.
  intros Hv Hid.
  destruct (processReceiptHandler_accepted indefinite r id st Hv) as (p & Hp & Hh).
  eexists p, _. split; [exact Hp|]. split; [exact Hh|].
  assert (Hget : forall s, points s !! id = Some p ->
                           getPointsHandler (pointsPath id) s = ResponsePoints p).
  { intros s Hs. unfold getPointsHandler.
    now rewrite (isUUIDString_path id Hid), Hs. }
  split.
  - apply Hget. simpl. apply lookup_insert_eq.
  - intros r2 id2 st2 resp Hne H2. apply Hget.
    unfold processReceiptHandler in H2.
    destruct r2 as [r2|]; [|injection H2 as <- _; apply lookup_insert_eq].
    destruct (validateReceipt r2); [injection H2 as <- _; apply lookup_insert_eq|].
    destruct (calculatePoints indefinite r2); [|discriminate].
    injection H2 as <- _. simpl.
    rewrite lookup_insert_ne by exact Hne. apply lookup_insert_eq.
Qed.

Lemma C9_store_then_lookup_witness :
  exists st',
    processReceiptHandler amd64 (Some targetReceipt) sampleID emptyStore
    = Some (st', ResponseID sampleID) /\
    getPointsHandler (pointsPath sampleID) st' = ResponsePoints 28.
Proof.
  destruct (C9_store_then_lookup amd64 targetReceipt sampleID emptyStore
              eq_refl eq_refl) as (p & st' & Hp & Hh & Hg & _).
  exists st'. split; [exact Hh|].
  rewrite Hg. f_equal.
  assert (E : Some p = Some 28) by (rewrite <- Hp; reflexivity).
  now injection E.
Defined.


(** ** Points and receipts together *)

Lemma targetReceipt_points indefinite :
  calculatePoints indefinite targetReceipt = Some 28.
Proof. vm_compute. reflexivity. Qed.

(** A handler that runs alone keeps the two maps paired. *)
Lemma processReceiptHandler_paired indefinite body id st st' resp :
  (forall k, paired st k) ->
  processReceiptHandler indefinite body id st = Some (st', resp) ->
  forall k, paired st' k.
Proof.
  intros Hst H k. unfold processReceiptHandler in H.
  destruct body as [r|]; [|injection H as <- _; apply Hst].
  destruct (validateReceipt r); [injection H as <- _; apply Hst|].
  destruct (calculatePoints indefinite r); [|discriminate].
  injection H as <- _. unfold paired. simpl.
  destruct (decide (id = k)) as [->|Hne].
  - rewrite !lookup_insert_eq. split; eauto.
  - rewrite !lookup_insert_ne by exact Hne. apply Hst.
Qed.

Lemma step_at indefinite s s' i r r' st' held' :
  requests s !! i = Some r ->
  statement indefinite (store s) (mutex s) r = Some (st', held', r') ->
  s' = {| store := st'; mutex := held'; requests := <[i := r']> (requests s) |} ->
  step indefinite s s'.
Proof. intros Hr Hs ->. econstructor; eauto. Qed.

(** The statements of a storing request, run with no other request in
    between, do what [processReceiptHandler] does. *)
Lemma processReceiptHandler_statements indefinite r id st st' resp :
  validateReceipt r = None ->
  processReceiptHandler indefinite (Some r) id st = Some (st', resp) ->
  reachable indefinite
    {| store := st; mutex := false; requests := [AtLine171 r id] |}
    {| store := st'; mutex := false; requests := [Answered resp] |}.
Proof.
  intros Hv H. unfold processReceiptHandler in H. rewrite Hv in H.
  destruct (calculatePoints indefinite r) as [p|] eqn:Hp; [|discriminate].
  injection H as <- <-. unfold reachable.
  eapply rtc_l.
  { eapply (step_at indefinite _ _ 0); [reflexivity| |reflexivity].
    unfold statement. now rewrite Hp. }
  eapply rtc_l; [eapply (step_at indefinite _ _ 0); reflexivity|].
  eapply rtc_l; [eapply (step_at indefinite _ _ 0); reflexivity|].
  eapply rtc_l; [eapply (step_at indefinite _ _ 0); reflexivity|].
  apply rtc_refl.
Qed.

(** C2, the code at the failing run: the handler writes the points at
    line 171, before it takes the mutex at line 172.  A lookup, of any
    identifier, that takes the mutex in between is inside its critical
    section while the store has points for an identifier that has no
    receipt; a lookup of that identifier finds the points and answers
    with them before the receipt is stored. *)
Theorem C2_points_without_receipt :
  (forall k,
      exists s,
        reachable amd64 (twoRequests k) s /\
        reading s k /\
        points (store s) !! sampleID = Some 28 /\
        receipts (store s) !! sampleID = None /\
        ~ paired (store s) sampleID) /\
  (exists s,
      reachable amd64 (twoRequests sampleID) s /\
      requests s !! 1%nat = Some (Answered (ResponsePoints 28)) /\
      requests s !! 0%nat = Some (AtLine172 targetReceipt sampleID) /\
      receipts (store s) !! sampleID = None).
Proof.
  pose (st1 := pointsOnly).
  assert (H1 : forall k, step amd64 (twoRequests k)
                 {| store := st1; mutex := false;
                    requests := [AtLine172 targetReceipt sampleID; AtLine144 k] |}).
  { intros k. eapply (step_at amd64 _ _ 0); [reflexivity| |reflexivity].
    unfold statement. now rewrite targetReceipt_points. }
  assert (H2 : forall k, step amd64
                 {| store := st1; mutex := false;
                    requests := [AtLine172 targetReceipt sampleID; AtLine144 k] |}
                 {| store := st1; mutex := true;
                    requests := [AtLine172 targetReceipt sampleID; AtLine145 k] |}).
  { intros k. eapply (step_at amd64 _ _ 1); reflexivity. }
  assert (Hp : points st1 !! sampleID = Some 28) by apply lookup_insert_eq.
  assert (Hr : receipts st1 !! sampleID = None) by apply lookup_empty.
  assert (Hn : ~ paired st1 sampleID).
  { unfold paired. intros [Hf _]. rewrite Hr in Hf.
    destruct (Hf (mk_is_Some _ _ Hp)) as [x Hx]. discriminate. }
  split.
  - intros k. eexists.
    split; [eapply rtc_l; [apply H1|]; eapply rtc_l; [apply H2|]; apply rtc_refl|].
    split; [split; [reflexivity | exists 1%nat; reflexivity]|].
    split; [exact Hp|]. split; [exact Hr | exact Hn].
  - assert (H3 : step amd64
                   {| store := st1; mutex := true;
                      requests := [AtLine172 targetReceipt sampleID; AtLine145 sampleID] |}
                   {| store := st1; mutex := true;
                      requests := [AtLine172 targetReceipt sampleID;
                                   AtLine146 sampleID (Some 28)] |}).
    { eapply (step_at amd64 _ _ 1); [reflexivity| |reflexivity].
      unfold statement. cbn [store mutex]. now rewrite Hp. }
    assert (H4 : step amd64
                   {| store := st1; mutex := true;
                      requests := [AtLine172 targetReceipt sampleID;
                                   AtLine146 sampleID (Some 28)] |}
                   {| store := st1; mutex := false;
                      requests := [AtLine172 targetReceipt sampleID;
                                   Answered (ResponsePoints 28)] |}).
    { eapply (step_at amd64 _ _ 1); reflexivity. }
    eexists. split;
      [eapply rtc_l; [apply H1|]; eapply rtc_l; [apply H2|];
       eapply rtc_l; [exact H3|]; eapply rtc_l; [exact H4|]; apply rtc_refl|].
    split; [reflexivity|]. split; [reflexivity|]. exact Hr.
Qed.

(** ** The validator, rule by rule *)

Lemma isEmpty_true s : isEmpty s = true <-> s = ""%string.
Proof. unfold isEmpty. apply String.eqb_eq. Qed.

Lemma isEmpty_false_iff s : isEmpty s = false <-> s <> ""%string.
Proof. unfold isEmpty. apply String.eqb_neq. Qed.

Lemma bytes_nil_iff s : bytes s = [] <-> s = ""%string.
Proof. split; [apply bytes_nil | now intros ->]. Qed.

Lemma retailerPattern_bytes s :
  Regexp.MatchString retailerPattern s = true <->
  s <> ""%string /\ Forall (fun c => retailerByte c = true) (bytes s).
Proof.
  unfold Regexp.MatchString, retailerPattern.
  rewrite matchBytes_lang, lang_plus_class, bytes_nil_iff.
  apply and_iff_compat_l. apply Forall_iff. intros c.
  unfold retailerByte, descriptionByte, Regexp.word, Regexp.space.
  match goal with |- ?a = true <-> ?b = true => replace a with b; [tauto|btauto] end.
Qed.

Lemma descriptionPattern_bytes s :
  Regexp.MatchString ShortDescriptionPattern s = true <->
  s <> ""%string /\ Forall (fun c => descriptionByte c = true) (bytes s).
Proof.
  unfold Regexp.MatchString, ShortDescriptionPattern.
  rewrite matchBytes_lang, lang_plus_class, bytes_nil_iff.
  apply and_iff_compat_l. apply Forall_iff. intros c.
  unfold descriptionByte, Regexp.word, Regexp.space.
  match goal with |- ?a = true <-> ?b = true => replace a with b; [tauto|btauto] end.
Qed.

Lemma digit_code c : isDigit c = true -> 48 <= code c <= 57.
Proof.
  unfold isDigit, between. intros H. apply andb_prop in H as [H1 H2].
  apply Z.leb_le in H1, H2. lia.
Qed.

Lemma getnum_two a b rest fixed :
  isDigit a = true -> isDigit b = true ->
  Time.getnum (a :: b :: rest) fixed
  = Some ((code a - 48) * 10 + (code b - 48), rest).
Proof. intros Ha Hb. unfold Time.getnum. now rewrite Ha, Hb. Qed.

Lemma calendarDate_Parse s :
  calendarDate s -> exists f, Time.Parse Time.layoutDate s = Some f.
Proof.
  intros (y1 & y2 & y3 & y4 & m1 & m2 & d1 & d2 & -> & Hdig & Hm & Hd).
  cbv beta zeta in Hm, Hd.
  apply Forall_cons_iff in Hdig as [Hy1 Hdig].
  apply Forall_cons_iff in Hdig as [Hy2 Hdig].
  apply Forall_cons_iff in Hdig as [Hy3 Hdig].
  apply Forall_cons_iff in Hdig as [Hy4 Hdig].
  apply Forall_cons_iff in Hdig as [Hm1 Hdig].
  apply Forall_cons_iff in Hdig as [Hm2 Hdig].
  apply Forall_cons_iff in Hdig as [Hd1 Hdig].
  apply Forall_cons_iff in Hdig as [Hd2 _].
  pose proof (digit_code y1 Hy1). pose proof (digit_code y2 Hy2).
  pose proof (digit_code y3 Hy3). pose proof (digit_code y4 Hy4).
  unfold Time.Parse, Time.layoutDate. rewrite bytes_str.
  cbn [Time.parseChunks Time.parseChunk].
  rewrite Hy1, Hy2, Hy3, Hy4. cbn [andb].
  change (Ascii.eqb "-" "-") with true. cbv iota.
  rewrite (getnum_two m1 m2) by assumption.
  replace (_ <=? 0) with false by (symmetry; apply Z.leb_gt; lia).
  replace (12 <? _) with false by (symmetry; apply Z.ltb_ge; lia).
  cbn [orb]. change (Ascii.eqb "-" "-") with true. cbv iota.
  rewrite (getnum_two d1 d2) by assumption.
  cbn [Time.day Time.month Time.year]. unfold Time.digitVal.
  rewrite daysIn_daysOfMonth by lia.
  replace ((((code y1 - 48) * 10 + (code y2 - 48)) * 10 + (code y3 - 48)) * 10
           + (code y4 - 48))
    with (((code y1 - 48) * 10 + (code y2 - 48)) * 100
          + ((code y3 - 48) * 10 + (code y4 - 48))) by lia.
  replace (_ <? 1) with false by (symmetry; apply Z.ltb_ge; lia).
  replace (_ <? _) with false by (symmetry; apply Z.ltb_ge; lia).
  cbn [orb]. eauto.
Qed.

Lemma getnum_free s n rest :
  Time.getnum s false = Some (n, rest) ->
  (exists a b, s = a :: b :: rest /\ isDigit a = true /\ isDigit b = true /\
               n = (code a - 48) * 10 + (code b - 48)) \/
  (exists a, s = a :: rest /\ isDigit a = true /\ n = code a - 48 /\
             match rest with b :: _ => isDigit b = false | [] => True end).
Proof.
  unfold Time.getnum. destruct s as [|a [|b s]]; try discriminate.
  - destruct (isDigit a) eqn:Ha; [|discriminate].
    intros [= <- <-]. right. exists a. auto.
  - destruct (isDigit a) eqn:Ha; [|discriminate].
    destruct (isDigit b) eqn:Hb; intros [= <- <-].
    + left. exists a, b. auto.
    + right. exists a. auto.
Qed.

Lemma getnum_one a b rest :
  isDigit a = true -> isDigit b = false ->
  Time.getnum (a :: b :: rest) false = Some (code a - 48, b :: rest).
Proof. intros Ha Hb. unfold Time.getnum. now rewrite Ha, Hb. Qed.

Lemma colon_not_digit : isDigit ":" = false.
Proof. reflexivity. Qed.

(** What [time.Parse] reads from a time of purchase it accepts. *)
Lemma Parse_layoutClock_inv s f :
  Time.Parse Time.layoutClock s = Some f ->
  (exists h m1 m2 : ascii,
      s = str [h; ":"%char; m1; m2] /\
      Forall (fun c => isDigit c = true) [h; m1; m2] /\
      Time.hour f = code h - 48 /\
      Time.min f = (code m1 - 48) * 10 + (code m2 - 48) /\
      Time.min f <= 59) \/
  (exists h1 h2 m1 m2 : ascii,
      s = str [h1; h2; ":"%char; m1; m2] /\
      Forall (fun c => isDigit c = true) [h1; h2; m1; m2] /\
      Time.hour f = (code h1 - 48) * 10 + (code h2 - 48) /\
      Time.min f = (code m1 - 48) * 10 + (code m2 - 48) /\
      Time.hour f <= 23 /\ Time.min f <= 59).
Proof.
  intros H. rewrite <- (str_bytes s). revert H.
  unfold Time.Parse, Time.layoutClock.
  generalize (bytes s) as l. intros l.
  destruct (Time.parseChunks _ l _) as [g|] eqn:E; [|discriminate].
  destruct (_ || _); [discriminate|]. intros [= <-].
  cbn [Time.parseChunks Time.parseChunk] in E.
  destruct (Time.getnum l false) as [[h rest]|] eqn:Hh; [|discriminate].
  destruct (_ || _) eqn:Hrange; [discriminate|].
  apply orb_false_elim in Hrange as [_ Hr]. apply Z.leb_gt in Hr.
  destruct rest as [|c rest]; [discriminate|].
  destruct (Ascii.eqb c ":") eqn:Hc; [|discriminate].
  apply Ascii.eqb_eq in Hc. subst c.
  destruct (Time.getnum rest true) as [[m rest']|] eqn:Hm; [|discriminate].
  apply getnum_fixed in Hm as (m1 & m2 & -> & Hm1 & Hm2 & ->).
  destruct (_ || _) eqn:Hrange; [discriminate|].
  apply orb_false_elim in Hrange as [_ Hr2]. apply Z.leb_gt in Hr2.
  destruct rest'; [|discriminate]. injection E as <-.
  cbn [Time.hour Time.min].
  apply getnum_free in Hh as [(a & b & -> & Ha & Hb & ->)|(a & -> & Ha & -> & _)].
  - right. exists a, b, m1, m2. repeat split; auto; lia.
  - left. exists a, m1, m2. repeat split; auto; lia.
Qed.

Lemma clockTime_Parse s :
  clockTime s -> exists f, Time.Parse Time.layoutClock s = Some f.
Proof.
  unfold clockTime. cbv beta zeta.
  intros [(h & m1 & m2 & -> & Hdig & Hm)|(h1 & h2 & m1 & m2 & -> & Hdig & Hh & Hm)].
  - apply Forall_cons_iff in Hdig as [Hh Hdig].
    apply Forall_cons_iff in Hdig as [Hm1 Hdig].
    apply Forall_cons_iff in Hdig as [Hm2 _].
    pose proof (digit_code h Hh). pose proof (digit_code m1 Hm1).
    pose proof (digit_code m2 Hm2).
    unfold Time.Parse, Time.layoutClock. rewrite bytes_str.
    cbn [Time.parseChunks Time.parseChunk].
    rewrite (getnum_one h ":") by (auto using colon_not_digit).
    replace (_ <? 0) with false by (symmetry; apply Z.ltb_ge; lia).
    replace (24 <=? _) with false by (symmetry; apply Z.leb_gt; lia).
    cbn [orb]. change (Ascii.eqb ":" ":") with true. cbv iota.
    rewrite (getnum_two m1 m2) by assumption.
    replace (_ <? 0) with false by (symmetry; apply Z.ltb_ge; lia).
    replace (60 <=? _) with false by (symmetry; apply Z.leb_gt; lia).
    cbn [orb]. cbn. eauto.
  - apply Forall_cons_iff in Hdig as [Hh1 Hdig].
    apply Forall_cons_iff in Hdig as [Hh2 Hdig].
    apply Forall_cons_iff in Hdig as [Hm1 Hdig].
    apply Forall_cons_iff in Hdig as [Hm2 _].
    pose proof (digit_code h1 Hh1). pose proof (digit_code h2 Hh2).
    pose proof (digit_code m1 Hm1). pose proof (digit_code m2 Hm2).
    unfold Time.Parse, Time.layoutClock. rewrite bytes_str.
    cbn [Time.parseChunks Time.parseChunk].
    rewrite (getnum_two h1 h2) by assumption.
    replace (_ <? 0) with false by (symmetry; apply Z.ltb_ge; lia).
    replace (24 <=? _) with false by (symmetry; apply Z.leb_gt; lia).
    cbn [orb]. change (Ascii.eqb ":" ":") with true. cbv iota.
    rewrite (getnum_two m1 m2) by assumption.
    replace (_ <? 0) with false by (symmetry; apply Z.ltb_ge; lia).
    replace (60 <=? _) with false by (symmetry; apply Z.leb_gt; lia).
    cbn [orb]. cbn. eauto.
Qed.

Lemma Parse_layoutClock_clockTime s :
  (exists f, Time.Parse Time.layoutClock s = Some f) <-> clockTime s.
Proof.
  split; [|apply clockTime_Parse].
  intros [f Hf]. unfold clockTime. cbv beta zeta.
  apply Parse_layoutClock_inv in Hf
    as [(h & m1 & m2 & -> & Hd & _ & Hm & Hle)
       |(h1 & h2 & m1 & m2 & -> & Hd & Hh & Hm & Hle1 & Hle2)].
  - left. exists h, m1, m2. repeat split; auto. lia.
  - right. exists h1, h2, m1, m2. repeat split; auto; lia.
Qed.

Lemma Parse_layoutDate_calendarDate s :
  (exists f, Time.Parse Time.layoutDate s = Some f) <-> calendarDate s.
Proof.
  split; [intros [f Hf]; eapply Parse_layoutDate, Hf | apply calendarDate_Parse].
Qed.

Lemma twoDecimals_not_empty s : twoDecimals s -> s <> ""%string.
Proof.
  intros (ds & d1 & d2 & -> & Hne & _) E.
  apply (f_equal bytes) in E. rewrite bytes_str in E.
  destruct ds; discriminate.
Qed.

Lemma calendarDate_not_empty s : calendarDate s -> s <> ""%string.
Proof. intros (y1 & y2 & y3 & y4 & m1 & m2 & d1 & d2 & -> & _). discriminate. Qed.

Lemma clockTime_not_empty s : clockTime s -> s <> ""%string.
Proof.
  intros [(h & m1 & m2 & -> & _)|(h1 & h2 & m1 & m2 & -> & _)]; discriminate.
Qed.

Lemma itemPassed_wellFormed item : itemPassed item <-> wellFormedItem item.
Proof.
  unfold itemPassed, wellFormedItem.
  rewrite descriptionPattern_bytes, totalPricePattern_twoDecimals,
    !isEmpty_false_iff.
  split; [tauto|]. intros (H1 & H2 & H3).
  pose proof (twoDecimals_not_empty _ H3). tauto.
Qed.

Lemma validateReceipt_wellFormed (r : Receipt) :
  validateReceipt r = None <-> wellFormed r.
Proof.
  rewrite validateReceipt_accepts. unfold wellFormed.
  rewrite retailerPattern_bytes, Parse_layoutDate_calendarDate,
    Parse_layoutClock_clockTime, totalPricePattern_twoDecimals,
    !isEmpty_false_iff.
  assert (Hit : Forall itemPassed (Items r) <-> Forall wellFormedItem (Items r))
    by apply Forall_iff, itemPassed_wellFormed.
  rewrite Hit.
  split; [tauto|].
  intros (H1 & H2 & H3 & H4 & H5 & H6 & H7).
  pose proof (twoDecimals_not_empty _ H5).
  pose proof (calendarDate_not_empty _ H3).
  pose proof (clockTime_not_empty _ H4). tauto.
Qed.

(** X1: the validator accepts a receipt exactly when the retailer is a
    non-empty string of letters, digits, underscores, white space,
    hyphens and ampersands, the date is a calendar date [YYYY-MM-DD],
    the time is [H:MM] or [HH:MM] with an hour up to 23 and a minute up
    to 59, the total is digits, a dot and two digits, and there is at
    least one item, each with a non-empty description of letters,
    digits, underscores, white space and hyphens and a price of the
    form of the total. *)
Theorem X1_validateReceipt_accepts_well_formed (r : Receipt) :
  validateReceipt r = None <-> wellFormed r.
Proof. apply validateReceipt_wellFormed. Qed.

Lemma X1_validateReceipt_accepts_well_formed_witness : wellFormed targetReceipt.
Proof.
  apply (proj1 (X1_validateReceipt_accepts_well_formed targetReceipt)).
  reflexivity.
Defined.

(** ** What the scorer reads in a validated date and time *)

Lemma digit_neq c k : isDigit c = true -> isDigit k = false -> Ascii.eqb c k = false.
Proof.
  intros Hc Hk. destruct (Ascii.eqb c k) eqn:E; [|reflexivity].
  apply Ascii.eqb_eq in E. congruence.
Qed.

Lemma digit_not_byte c k :
  isDigit c = true -> (k < 48 \/ 57 < k) -> isByte k c = false.
Proof.
  intros Hc Hk. apply digit_code in Hc. unfold isByte. apply Z.eqb_neq. lia.
Qed.

(** What [time.Parse] reads from a date of purchase it accepts. *)
Lemma Parse_layoutDate_inv s f :
  Time.Parse Time.layoutDate s = Some f ->
  exists y1 y2 y3 y4 m1 m2 d1 d2 : ascii,
    s = str [y1; y2; y3; y4; "-"%char; m1; m2; "-"%char; d1; d2] /\
    Forall (fun c => isDigit c = true) [y1; y2; y3; y4; m1; m2; d1; d2] /\
    Time.day f = (code d1 - 48) * 10 + (code d2 - 48).
Proof.
  intros H. rewrite <- (str_bytes s). revert H.
  unfold Time.Parse, Time.layoutDate.
  generalize (bytes s) as l. intros l.
  destruct (Time.parseChunks _ l _) as [g|] eqn:E; [|discriminate].
  destruct (_ || _); [discriminate|]. intros [= <-].
  cbn [Time.parseChunks Time.parseChunk] in E.
  destruct l as [|y1 [|y2 [|y3 [|y4 l]]]]; try discriminate.
  destruct (isDigit y1 && isDigit y2 && isDigit y3 && isDigit y4) eqn:Hy;
    [|discriminate].
  apply andb_prop in Hy as [Hy Hy4]. apply andb_prop in Hy as [Hy Hy3].
  apply andb_prop in Hy as [Hy1 Hy2].
  destruct l as [|c1 l]; [discriminate|].
  destruct (Ascii.eqb c1 "-") eqn:Hc1; [|discriminate].
  apply Ascii.eqb_eq in Hc1. subst c1.
  destruct (Time.getnum l true) as [[m rest]|] eqn:Hm; [|discriminate].
  apply getnum_fixed in Hm as (m1 & m2 & -> & Hm1 & Hm2 & ->).
  destruct (_ || _); [discriminate|].
  destruct rest as [|c2 rest]; [discriminate|].
  destruct (Ascii.eqb c2 "-") eqn:Hc2; [|discriminate].
  apply Ascii.eqb_eq in Hc2. subst c2.
  destruct (Time.getnum rest true) as [[d rest']|] eqn:Hd; [|discriminate].
  apply getnum_fixed in Hd as (d1 & d2 & -> & Hdd1 & Hdd2 & ->).
  destruct rest'; [|discriminate]. injection E as <-.
  exists y1, y2, y3, y4, m1, m2, d1, d2.
  split; [reflexivity|]. split; [repeat constructor; auto | reflexivity].
Qed.

Lemma Atoi_two_digits a b :
  isDigit a = true -> isDigit b = true ->
  Atoi (str [a; b]) = ((code a - 48) * 10 + (code b - 48), None).
Proof.
  intros Ha Hb. unfold Atoi. rewrite bytes_str. cbn [GoInt.len length].
  cbn [Z.of_nat Z.ltb Z.compare Pos.compare Pos.compare_cont Pos.of_succ_nat
       Pos.succ andb].
  rewrite !(digit_not_byte a) by (auto; lia). cbn [orb andb].
  cbn [atoiFast]. rewrite Ha, Hb. reflexivity.
Qed.

Lemma Atoi_one_digit a :
  isDigit a = true -> Atoi (str [a]) = (code a - 48, None).
Proof.
  intros Ha. unfold Atoi. rewrite bytes_str. cbn [GoInt.len length].
  cbn [Z.of_nat Z.ltb Z.compare Pos.compare Pos.compare_cont Pos.of_succ_nat
       Pos.succ andb].
  rewrite !(digit_not_byte a) by (auto; lia). cbn [orb andb].
  cbn [atoiFast]. rewrite Ha. reflexivity.
Qed.

Lemma odd_rem2 d : 0 <= d -> negb (GoInt.rem d 2 =? 0) = Z.odd d.
Proof.
  intros Hd. unfold GoInt.rem. rewrite Z.rem_mod_nonneg by lia.
  rewrite Zmod_odd. now destruct (Z.odd d).
Qed.

Lemma Split_date y1 y2 y3 y4 m1 m2 d1 d2 :
  Forall (fun c => isDigit c = true) [y1; y2; y3; y4; m1; m2; d1; d2] ->
  Strings.Split (str [y1; y2; y3; y4; "-"%char; m1; m2; "-"%char; d1; d2]) "-"
  = [str [y1; y2; y3; y4]; str [m1; m2]; str [d1; d2]].
Proof.
  intros H. unfold Strings.Split. rewrite bytes_str.
  repeat (apply Forall_cons_iff in H as [? H]).
  cbn [Strings.splitBytes].
  change (Ascii.eqb "-" "-") with true.
  rewrite !(fun c H => digit_neq c "-" H eq_refl) by assumption.
  reflexivity.
Qed.

Lemma Split_clock1 h m1 m2 :
  Forall (fun c => isDigit c = true) [h; m1; m2] ->
  Strings.Split (str [h; ":"%char; m1; m2]) ":" = [str [h]; str [m1; m2]].
Proof.
  intros H. unfold Strings.Split. rewrite bytes_str.
  repeat (apply Forall_cons_iff in H as [? H]).
  cbn [Strings.splitBytes].
  change (Ascii.eqb ":" ":") with true.
  rewrite !(fun c H => digit_neq c ":" H eq_refl) by assumption.
  reflexivity.
Qed.

Lemma Split_clock2 h1 h2 m1 m2 :
  Forall (fun c => isDigit c = true) [h1; h2; m1; m2] ->
  Strings.Split (str [h1; h2; ":"%char; m1; m2]) ":" = [str [h1; h2]; str [m1; m2]].
Proof.
  intros H. unfold Strings.Split. rewrite bytes_str.
  repeat (apply Forall_cons_iff in H as [? H]).
  cbn [Strings.splitBytes].
  change (Ascii.eqb ":" ":") with true.
  rewrite !(fun c H => digit_neq c ":" H eq_refl) by assumption.
  reflexivity.
Qed.

(** X2: for a receipt the validator accepts, the scorer's own reading
    of the date and of the time (split, then [Atoi]) gives the day,
    the hour and the minute that [time.Parse] read: the day rule adds 6
    exactly when the day of the month is odd, and the time rule adds 10
    exactly when the time of day is from 14:00 up to 15:59, with no
    wrap-around. *)
Theorem X2_validated_day_and_time (r : Receipt) :
  validateReceipt r = None ->
  exists d t,
    Time.Parse Time.layoutDate (PurchaseDate r) = Some d /\
    Time.Parse Time.layoutClock (PurchaseTime r) = Some t /\
    forall p,
      dayRule r p = Some (if Z.odd (Time.day d) then GoInt.add p 6 else p) /\
      timeRule r p
      = Some (if (14 * 60 <=? Time.hour t * 60 + Time.min t)
                 && (Time.hour t * 60 + Time.min t <? 16 * 60)
              then GoInt.add p 10 else p).
Proof.
  intros Hv. apply validateReceipt_accepts in Hv as (_ & _ & [d Hd] & [t Ht] & _).
  exists d, t. split; [exact Hd|]. split; [exact Ht|]. intros p. split.
  - apply Parse_layoutDate_inv in Hd
      as (y1 & y2 & y3 & y4 & m1 & m2 & d1 & d2 & E & Hdig & Hday).
    rewrite (dayRule_three_parts r _ _ _ p
               ltac:(rewrite E; apply Split_date, Hdig)).
    repeat (apply Forall_cons_iff in Hdig as [? Hdig]).
    rewrite Atoi_two_digits by assumption. cbn [fst]. rewrite Hday.
    rewrite odd_rem2; [reflexivity|].
    pose proof (digit_code d1 ltac:(assumption)).
    pose proof (digit_code d2 ltac:(assumption)). lia.
  - apply Parse_layoutClock_inv in Ht
      as [(h & m1 & m2 & E & Hdig & Hh & Hm & Hle)
         |(h1 & h2 & m1 & m2 & E & Hdig & Hh & Hm & Hle1 & Hle2)].
    + rewrite (timeRule_two_parts r _ _ p
                 ltac:(rewrite E; apply Split_clock1, Hdig)).
      repeat (apply Forall_cons_iff in Hdig as [? Hdig]).
      rewrite Atoi_one_digit, Atoi_two_digits by assumption. cbn [fst].
      rewrite <- Hh, <- Hm.
      pose proof (digit_code h ltac:(assumption)).
      pose proof (digit_code m1 ltac:(assumption)).
      pose proof (digit_code m2 ltac:(assumption)).
      rewrite timeValue_exact by lia. reflexivity.
    + rewrite (timeRule_two_parts r _ _ p
                 ltac:(rewrite E; apply Split_clock2, Hdig)).
      repeat (apply Forall_cons_iff in Hdig as [? Hdig]).
      rewrite !Atoi_two_digits by assumption. cbn [fst].
      rewrite <- Hh, <- Hm.
      pose proof (digit_code h1 ltac:(assumption)).
      pose proof (digit_code h2 ltac:(assumption)).
      pose proof (digit_code m1 ltac:(assumption)).
      pose proof (digit_code m2 ltac:(assumption)).
      rewrite timeValue_exact by lia. reflexivity.
Qed.

Lemma X2_validated_day_and_time_witness :
  exists d t,
    Time.Parse Time.layoutDate (PurchaseDate targetReceipt) = Some d /\
    Time.Parse Time.layoutClock (PurchaseTime targetReceipt) = Some t /\
    forall p,
      dayRule targetReceipt p
      = Some (if Z.odd (Time.day d) then GoInt.add p 6 else p) /\
      timeRule targetReceipt p
      = Some (if (14 * 60 <=? Time.hour t * 60 + Time.min t)
                 && (Time.hour t * 60 + Time.min t <? 16 * 60)
              then GoInt.add p 10 else p).
Proof. apply (X2_validated_day_and_time targetReceipt). reflexivity. Defined.

(** ** Amounts with two decimals *)

Lemma lower_digit c : isDigit c = true -> lower c = c.
Proof.
  destruct c as [[] [] [] [] [] [] [] []]; intros H; try discriminate H; reflexivity.
Qed.

Lemma special_digit c s : isDigit c = true -> special (c :: s) = None.
Proof.
  intros H. unfold special.
  now rewrite !(digit_not_byte c) by (auto; lia).
Qed.

Lemma readDigits_digits ds rest st :
  Forall (fun c => isDigit c = true) ds -> ds <> [] ->
  readDigits false (ds ++ rest) st
  = readDigits false rest
      {| mant := fold_left (fun n c => n * 10 + (code c - 48)) ds (mant st);
         fracDigits := if sawdot st then fracDigits st + GoInt.len ds
                       else fracDigits st;
         sawdot := sawdot st; sawdigits := true |}.
Proof.
  intros Hds. revert st. induction Hds as [|c ds Hc Hds IH]; intros st Hne.
  - congruence.
  - cbn [app readDigits].
    rewrite !(digit_not_byte c) by (auto; lia). rewrite Hc. cbn [orb].
    destruct ds as [|c' ds].
    + cbn [app fold_left]. unfold digitVal, GoInt.len. cbn [length Z.of_nat].
      reflexivity.
    + rewrite IH by discriminate. cbn [mant fracDigits sawdot sawdigits].
      unfold digitVal, GoInt.len. cbn [fold_left].
      destruct (sawdot st); [|reflexivity].
      do 2 f_equal. cbn [length]. lia.
Qed.

Lemma underscoreLoop_plain saw l :
  saw <> SawUnderscore ->
  Forall (fun c => isDigit c = true \/ c = "."%char) l ->
  underscoreLoop false saw l = true.
Proof.
  intros Hsaw Hl. revert saw Hsaw. induction Hl as [|c l Hc _ IH]; intros saw Hsaw.
  - now destruct saw.
  - cbn [underscoreLoop]. destruct Hc as [Hc| ->].
    + rewrite Hc. cbn [orb]. apply IH. discriminate.
    + cbn. destruct saw; try congruence; apply IH; discriminate.
Qed.

Lemma readFloat_twoDecimals ds d1 d2 :
  ds <> [] -> Forall (fun c => isDigit c = true) ds ->
  isDigit d1 = true -> isDigit d2 = true ->
  readFloat (ds ++ ["."%char; d1; d2])
  = Some {| neg := false; hex := false;
            digits := decimalValue (ds ++ [d1; d2]); exponent := -2 |}.
Proof.
  intros Hne Hds H1 H2.
  assert (Hplain : Forall (fun c => isDigit c = true \/ c = "."%char)
                     (ds ++ ["."%char; d1; d2])).
  { apply Forall_app. split.
    - eapply Forall_impl; [exact Hds | auto].
    - constructor; [now right|].
      constructor; [now left|]. constructor; [now left|constructor]. }
  assert (Hus : underscoreOK (ds ++ ["."%char; d1; d2]) = true).
  { destruct ds as [|c0 ds]; [congruence|].
    apply Forall_cons_iff in Hds as [Hc0 Hds].
    unfold underscoreOK, stripSign. cbn [app].
    rewrite !(digit_not_byte c0) by (auto; lia). cbn [orb].
    assert (Hc1 : exists c1 r, ds ++ ["."%char; d1; d2] = c1 :: r /\
                               (isDigit c1 = true \/ c1 = "."%char)).
    { destruct ds as [|c1 ds]; cbn [app].
      - exists "."%char, [d1; d2]. auto.
      - apply Forall_cons_iff in Hds as [Hc1 _].
        exists c1, (ds ++ ["."%char; d1; d2]). auto. }
    destruct Hc1 as (c1 & r & E & Hc1). rewrite E.
    assert (Hl : (code (lower c1) =? 98) || (code (lower c1) =? 111)
                 || (code (lower c1) =? 120) = false).
    { destruct Hc1 as [Hc1| ->]; [|reflexivity].
      rewrite lower_digit by exact Hc1. apply digit_code in Hc1.
      rewrite !orb_false_iff, !Z.eqb_neq. lia. }
    rewrite Hl, andb_false_r. rewrite <- E.
    apply (underscoreLoop_plain SawStart (c0 :: ds ++ ["."%char; d1; d2]));
      [discriminate|exact Hplain]. }
  unfold readFloat. rewrite Hus.
  destruct ds as [|c0 ds'] eqn:Eds; [congruence|]. rewrite <- Eds in *.
  assert (Hc0 : isDigit c0 = true) by (subst ds; now apply Forall_cons_iff in Hds).
  assert (Hsign : stripSign (ds ++ ["."%char; d1; d2]) = ds ++ ["."%char; d1; d2]).
  { subst ds. unfold stripSign. cbn [app].
    now rewrite !(digit_not_byte c0) by (auto; lia). }
  rewrite Hsign.
  assert (Hhex : match ds ++ ["."%char; d1; d2] with
                 | c0 :: c1 :: _ :: _ => isByte 48 c0 && Ascii.eqb (lower c1) "x"
                 | _ => false
                 end = false).
  { subst ds. cbn [app]. destruct ds' as [|c1 ds']; cbn [app].
    - apply andb_false_r.
    - apply Forall_cons_iff in Hds as [_ Hds].
      apply Forall_cons_iff in Hds as [Hc1 _].
      rewrite lower_digit by exact Hc1.
      rewrite (digit_neq c1 "x" Hc1 eq_refl).
      destruct (ds' ++ _); [reflexivity | apply andb_false_r]. }
  rewrite Hhex. cbv iota.
  rewrite (readDigits_digits ds) by assumption.
  cbn [mant fracDigits sawdot sawdigits readDigits].
  change (isByte 95 ".") with false. change (isByte 46 ".") with true.
  cbv iota. cbn [mant fracDigits sawdot sawdigits readDigits].
  rewrite !(digit_not_byte d1), !(digit_not_byte d2) by (auto; lia).
  rewrite H1, H2. cbn [orb negb]. cbn [mant fracDigits sawdot sawdigits readExponent].
  cbv iota. rewrite Eds at 1. cbn [app]. rewrite (digit_not_byte c0) by (auto; lia).
  unfold decimalValue. rewrite fold_left_app. cbn [fold_left].
  unfold digitVal. reflexivity.
Qed.

Lemma ParseFloat_twoDecimals ds d1 d2 :
  ds <> [] -> Forall (fun c => isDigit c = true) ds ->
  isDigit d1 = true -> isDigit d2 = true ->
  ParseFloat (str (ds ++ ["."%char; d1; d2]))
  = rangeChecked (nearest false (decimalValue (ds ++ [d1; d2])) 100).
Proof.
  intros Hne Hds H1 H2. unfold ParseFloat. rewrite bytes_str.
  rewrite readFloat_twoDecimals by assumption.
  destruct ds as [|c0 ds]; [congruence|]. cbn [app].
  rewrite special_digit by now apply Forall_cons_iff in Hds.
  unfold valueOf. cbn [hex neg digits exponent].
  change (0 <=? -2) with false. cbv iota.
  change (Z.to_pos (10 ^ (- (-2)))) with 100%positive.
  unfold rangeChecked. now destruct (nearest _ _ _).
Qed.

Lemma rangeChecked_not_syntax v : snd (rangeChecked v) <> Some ErrSyntax.
Proof. now destruct v. Qed.

(** X3: the total and every price of a receipt the validator accepts
    parse without a syntax error in the scorer: each is digits, a dot
    and two digits, and [ParseFloat] gives the float64 nearest to that
    number of hundredths divided by 100; the one error left is the
    range error of an amount too large for a float64, whose value is
    then +Inf. *)
Theorem X3_validated_amounts_parse (r : Receipt) (s : string) :
  validateReceipt r = None ->
  s = Total r \/ (exists item, In item (Items r) /\ s = Price item) ->
  exists (ds : list ascii) (d1 d2 : ascii),
    s = str (ds ++ ["."%char; d1; d2]) /\
    ParseFloat s
    = rangeChecked (nearest false (decimalValue (ds ++ [d1; d2])) 100) /\
    snd (ParseFloat s) <> Some ErrSyntax.
Proof.
  intros Hv Hs.
  assert (Ht : twoDecimals s).
  { apply validateReceipt_wellFormed in Hv
      as (_ & _ & _ & _ & Htot & _ & Hitems).
    destruct Hs as [->|(item & Hin & ->)]; [exact Htot|].
    rewrite List.Forall_forall in Hitems. apply (Hitems item Hin). }
  destruct Ht as (ds & d1 & d2 & -> & Hne & Hds & H1 & H2).
  exists ds, d1, d2. split; [reflexivity|].
  rewrite ParseFloat_twoDecimals by assumption.
  split; [reflexivity | apply rangeChecked_not_syntax].
Qed.

Lemma X3_validated_amounts_parse_witness :
  exists (ds : list ascii) (d1 d2 : ascii),
    Total targetReceipt = str (ds ++ ["."%char; d1; d2]) /\
    ParseFloat (Total targetReceipt)
    = rangeChecked (nearest false (decimalValue (ds ++ [d1; d2])) 100) /\
    snd (ParseFloat (Total targetReceipt)) <> Some ErrSyntax.
Proof.
  apply (X3_validated_amounts_parse targetReceipt (Total targetReceipt) eq_refl).
  left. reflexivity.
Defined.

(** ** The score is the sum of the rules *)

Lemma wrap_eq a b : a mod 2 ^ 64 = b mod 2 ^ 64 -> GoInt.wrap a = GoInt.wrap b.
Proof.
  intros H. unfold GoInt.wrap. f_equal.
  rewrite (Zplus_mod a), (Zplus_mod b). now rewrite H.
Qed.

Lemma wrap_mod a : GoInt.wrap a mod 2 ^ 64 = a mod 2 ^ 64.
Proof.
  unfold GoInt.wrap. rewrite Zminus_mod_idemp_l. f_equal. lia.
Qed.

Lemma wrap_mul_l a b : GoInt.wrap (GoInt.wrap a * b) = GoInt.wrap (a * b).
Proof.
  apply wrap_eq. rewrite Zmult_mod, wrap_mod. now rewrite <- Zmult_mod.
Qed.

Lemma String_length_str l : String.length (str l) = length l.
Proof. unfold str. induction l; simpl; auto. Qed.

Lemma filter_bool {A} (f : A -> bool) (l : list A) :
  filter f l = List.filter f l.
Proof.
  induction l as [|x l IH]; [reflexivity|].
  rewrite filter_cons. cbn [List.filter]. rewrite IH.
  destruct (f x); [now rewrite decide_True | now rewrite decide_False].
Qed.

Lemma retailerRule_points r p :
  retailerRule r (GoInt.wrap p) = GoInt.wrap (p + retailerPoints r).
Proof.
  unfold retailerRule, retailerPoints, Regexp.ReplaceAllString, Bytes.len, GoInt.add.
  rewrite wrap_add_l, String_length_str, filter_bool. do 4 f_equal.
  apply filter_ext. intros c. unfold notAlphanumeric. apply negb_involutive.
Qed.

Lemma totalRules_points r p :
  totalRules r (GoInt.wrap p)
  = GoInt.wrap (p + roundDollarPoints r + quarterPoints r).
Proof.
  unfold totalRules, roundDollarPoints, quarterPoints, GoInt.add.
  destruct (ParseFloat (Total r)) as [total e]. cbn [fst].
  destruct (Math.eq (Math.Mod total Math.f1) Math.f0),
           (Math.eq (Math.Mod total Math.f0_25) Math.f0);
    rewrite ?wrap_add_l, <- ?Z.add_assoc, ?wrap_add_l; f_equal; lia.
Qed.

Lemma pairsRule_points r p :
  pairsRule r (GoInt.wrap p) = GoInt.wrap (p + pairPoints r).
Proof.
  unfold pairsRule, pairPoints, GoInt.add, GoInt.mul, GoInt.quot, GoInt.len.
  apply wrap_eq.
  rewrite Zplus_mod, !wrap_mod, (Zmult_mod (GoInt.wrap _)), wrap_mod.
  rewrite <- Zmult_mod, <- Zplus_mod. f_equal.
  rewrite Z.quot_div_nonneg by lia. lia.
Qed.

Lemma odd_rem2_all d : negb (GoInt.rem d 2 =? 0) = Z.odd d.
Proof.
  unfold GoInt.rem. rewrite <- Z.negb_even. f_equal.
  destruct (Z.even d) eqn:E.
  - apply Z.eqb_eq. apply Z.even_spec in E as [k ->].
    rewrite Z.mul_comm. apply Z.rem_mul. lia.
  - apply Z.eqb_neq. intros H. apply Z.rem_divide in H; [|lia].
    destruct H as [k ->]. rewrite Z.even_mul in E. simpl in E.
    now rewrite orb_true_r in E.
Qed.

Lemma dayRule_points r p :
  dayRule r (GoInt.wrap p) = Some (GoInt.wrap (p + dayPoints r)).
Proof.
  unfold dayRule, dayPoints, GoInt.len.
  destruct (Strings.Split (PurchaseDate r) "-") as [|a [|b [|c [|d l]]]].
  1-3, 5: replace (Z.of_nat (length _) =? 3) with false
      by (symmetry; apply Z.eqb_neq; cbn [length]; lia);
    do 2 f_equal; lia.
  cbn. destruct (Atoi c) as [day e]. cbn [fst].
  rewrite odd_rem2_all. unfold GoInt.add.
  destruct (Z.odd day); [now rewrite wrap_add_l | now rewrite Z.add_0_r].
Qed.

Lemma timeRule_points r p :
  timeRule r (GoInt.wrap p) = Some (GoInt.wrap (p + timePoints r)).
Proof.
  unfold timeRule, timePoints, GoInt.len.
  destruct (Strings.Split (PurchaseTime r) ":") as [|a [|b [|c l]]].
  1-2, 4: replace (Z.of_nat (length _) =? 2) with false
      by (symmetry; apply Z.eqb_neq; cbn [length]; lia);
    do 2 f_equal; lia.
  cbn. destruct (Atoi a) as [hour e], (Atoi b) as [minute e']. cbn [fst].
  unfold GoInt.add.
  destruct (_ && _); [now rewrite wrap_add_l | now rewrite Z.add_0_r].
Qed.

Lemma calculatePoints_rulePoints indefinite r :
  calculatePoints indefinite r = Some (GoInt.wrap (rulePoints indefinite r)).
Proof.
  unfold calculatePoints, rulePoints, itemPoints.
  change 0 with (GoInt.wrap 0) at 1.
  rewrite retailerRule_points, totalRules_points, pairsRule_points,
    itemsLoop_sum, dayRule_points, timeRule_points.
  do 2 f_equal; lia.
Qed.

(** X4: the score is the sum of the seven rules, each taken by itself
    on the receipt, reduced to a 64-bit [int]: the points of the
    retailer name, of the round total, of the total in quarters, of the
    pairs of items, of the descriptions, of the odd day and of the
    afternoon.  When the sum fits an [int] the score is that sum; every
    rule but that of the descriptions gives a fixed amount or nothing,
    or counts bytes or items. *)
Theorem X4_score_is_sum_of_rules (indefinite : float64 -> Z) (r : Receipt) :
  calculatePoints indefinite r = Some (GoInt.wrap (rulePoints indefinite r)) /\
  (GoInt.in_range (rulePoints indefinite r) ->
   calculatePoints indefinite r = Some (rulePoints indefinite r)) /\
  0 <= retailerPoints r <= Bytes.len (Retailer r) /\
  (roundDollarPoints r = 0 \/ roundDollarPoints r = 50) /\
  (quarterPoints r = 0 \/ quarterPoints r = 25) /\
  (dayPoints r = 0 \/ dayPoints r = 6) /\
  (timePoints r = 0 \/ timePoints r = 10) /\
  0 <= pairPoints r <= 5 * GoInt.len (Items r).
Proof.
  split; [apply calculatePoints_rulePoints|].
  split; [intros H; rewrite calculatePoints_rulePoints; f_equal; now apply wrap_id|].
  split.
  { unfold retailerPoints, Bytes.len.
    pose proof (filter_length_le (fun c => isLower c || isUpper c || isDigit c)
                  (bytes (Retailer r))) as H.
    rewrite <- (str_bytes (Retailer r)) at 3. rewrite String_length_str. lia. }
  split; [unfold roundDollarPoints; destruct (Math.eq _ _); auto|].
  split; [unfold quarterPoints; destruct (Math.eq _ _); auto|].
  split.
  { unfold dayPoints. destruct (Strings.Split _ _) as [|a [|b [|c [|d l]]]]; auto.
    destruct (Z.odd _); auto. }
  split.
  { unfold timePoints. destruct (Strings.Split _ _) as [|a [|b [|c l]]]; auto.
    cbv zeta. destruct (_ && _); auto. }
  unfold pairPoints, GoInt.len.
  pose proof (Z.div_pos (Z.of_nat (length (Items r))) 2 ltac:(lia) ltac:(lia)).
  pose proof (Z.div_le_upper_bound (Z.of_nat (length (Items r))) 2
                (Z.of_nat (length (Items r))) ltac:(lia) ltac:(lia)).
  lia.
Qed.

Lemma X4_score_is_sum_of_rules_witness :
  calculatePoints amd64 targetReceipt = Some (rulePoints amd64 targetReceipt).
Proof.
  apply (proj1 (proj2 (X4_score_is_sum_of_rules amd64 targetReceipt))).
  vm_compute. split; discriminate.
Defined.

(** ** The order of the items *)

Lemma sumZ_Permutation l l' : Permutation l l' -> sumZ l = sumZ l'.
Proof. induction 1; simpl; lia. Qed.

(** X5: the score does not depend on the order of the items: a receipt
    with the same items in another order scores the same. *)
Theorem X5_score_ignores_item_order
        (indefinite : float64 -> Z) (r : Receipt) (items : list Item) :
  Permutation (Items r) items ->
  calculatePoints indefinite (withItems r items) = calculatePoints indefinite r.
Proof.
  intros H. rewrite !calculatePoints_rulePoints. do 2 f_equal.
  unfold rulePoints, retailerPoints, roundDollarPoints, quarterPoints, pairPoints,
    itemPoints, dayPoints, timePoints. cbn [withItems Retailer Total PurchaseDate
    PurchaseTime Items].
  rewrite (Permutation_length H).
  rewrite (sumZ_Permutation _ _ (Permutation_map (descriptionBonus indefinite) H)).
  reflexivity.
Qed.

Lemma X5_score_ignores_item_order_witness :
  calculatePoints amd64 (withItems targetReceipt (rev (Items targetReceipt)))
  = calculatePoints amd64 targetReceipt.
Proof.
  apply X5_score_ignores_item_order. apply Permutation_rev.
Defined.

(** ** What [extractUUID] returns *)

Lemma hasPrefix_inv p s r : hasPrefix p s = Some r -> s = p ++ r.
Proof.
  revert s. induction p as [|a p IH]; intros s H; simpl in H.
  - now injection H as ->.
  - destruct s as [|b s]; [discriminate|].
    destruct (Ascii.eqb a b) eqn:E; [|discriminate].
    apply Ascii.eqb_eq in E. subst b. simpl. f_equal. now apply IH.
Qed.

Lemma span_inv cls s g r :
  Regexp.span cls s = (g, r) ->
  s = g ++ r /\ Forall (fun c => cls c = true) g.
Proof.
  revert g r. induction s as [|c s IH]; intros g r H; simpl in H.
  - injection H as <- <-. auto.
  - destruct (cls c) eqn:Hc.
    + destruct (Regexp.span cls s) as [g' r'] eqn:E. injection H as <- <-.
      destruct (IH g' r' eq_refl) as [-> Hg]. auto.
    + injection H as <- <-. auto.
Qed.

Lemma submatchHere_inv pre cls post s g :
  Regexp.submatchHere pre cls post s = Some g ->
  g <> [] /\ Forall (fun c => cls c = true) g /\
  exists rest, s = pre ++ g ++ post ++ rest.
Proof.
  unfold Regexp.submatchHere.
  destruct (hasPrefix pre s) as [r|] eqn:Hp; [|discriminate].
  apply hasPrefix_inv in Hp. subst s.
  destruct (Regexp.span cls r) as [g' r'] eqn:Hs.
  apply span_inv in Hs as [-> Hg].
  destruct g' as [|c g']; [discriminate|].
  destruct (hasPrefix post r') as [rest|] eqn:Hq; [|discriminate].
  apply hasPrefix_inv in Hq. subst r'. intros [= <-].
  split; [discriminate|]. split; [exact Hg|]. now exists rest.
Qed.

Lemma FindStringSubmatch_inv pre cls post s g :
  Regexp.FindStringSubmatch pre cls post s = Some g ->
  g <> [] /\ Forall (fun c => cls c = true) g /\
  exists before rest, s = before ++ pre ++ g ++ post ++ rest.
Proof.
  induction s as [|c s IH]; cbn [Regexp.FindStringSubmatch].
  - destruct (Regexp.submatchHere pre cls post []) eqn:E; [|discriminate].
    intros [= <-]. apply submatchHere_inv in E as (Hne & Hg & rest & E).
    split; [exact Hne|]. split; [exact Hg|]. now exists [], rest.
  - destruct (Regexp.submatchHere pre cls post (c :: s)) eqn:E.
    + intros [= <-]. apply submatchHere_inv in E as (Hne & Hg & rest & E).
      split; [exact Hne|]. split; [exact Hg|]. now exists [], rest.
    + intros H. apply IH in H as (Hne & Hg & before & rest & ->).
      split; [exact Hne|]. split; [exact Hg|]. now exists (c :: before), rest.
Qed.

Lemma str_app a b : str (a ++ b) = (str a ++ str b)%string.
Proof. unfold str. induction a as [|c a IH]; simpl; [reflexivity | now rewrite IH]. Qed.

Lemma str_nil_iff l : str l = ""%string <-> l = [].
Proof. destruct l; split; try discriminate; reflexivity. Qed.

(** X6: when [extractUUID] returns a string that is not empty, the path
    has [/receipts/], that string and [/points] in a row, and the
    string is made of the digits, the letters [a] to [f] and the
    hyphen only; the path [/receipts/<id>/points] of any such
    identifier gives the identifier back. *)
Theorem X6_extractUUID_sound (url id : string) :
  (extractUUID url <> ""%string ->
   Forall (fun c => uuidClass c = true) (bytes (extractUUID url)) /\
   exists before rest : string,
     url = (before ++ "/receipts/" ++ extractUUID url ++ "/points" ++ rest)%string) /\
  (id <> ""%string ->
   Forall (fun c => uuidClass c = true) (bytes id) ->
   extractUUID (pointsPath id) = id).
Proof.
  split; [|apply extractUUID_pointsPath].
  unfold extractUUID.
  destruct (Regexp.FindStringSubmatch _ _ _ _) as [g|] eqn:E; [|congruence].
  intros _. apply FindStringSubmatch_inv in E as (Hne & Hg & before & rest & E).
  split; [now rewrite bytes_str|].
  exists (str before), (str rest).
  rewrite <- (str_bytes url), E, !str_app. reflexivity.
Qed.

Lemma X6_extractUUID_sound_witness :
  extractUUID (pointsPath sampleID) = sampleID.
Proof.
  apply (proj2 (X6_extractUUID_sound sampleID sampleID)); [discriminate|].
  apply (uuidShape_class 0). reflexivity.
Defined.

(** ** Requests one after the other *)

Lemma processReceiptHandler_rejected indefinite body id st :
  (forall r, body = Some r -> validateReceipt r <> None) ->
  processReceiptHandler indefinite body id st = Some (st, invalidReply).
Proof.
  intros H. unfold processReceiptHandler, invalidReply.
  destruct body as [r|]; [|reflexivity].
  specialize (H r eq_refl). apply validateReceipt_rejects in H.
  rewrite H. reflexivity.
Qed.

Lemma processReceiptHandler_cases indefinite body id st :
  (exists r p,
      body = Some r /\ validateReceipt r = None /\
      calculatePoints indefinite r = Some p /\
      processReceiptHandler indefinite body id st
      = Some ({| receipts := <[id := r]> (receipts st);
                 points := <[id := p]> (points st) |}, ResponseID id)) \/
  ((forall r, body = Some r -> validateReceipt r <> None) /\
   processReceiptHandler indefinite body id st = Some (st, invalidReply)).
Proof.
  destruct body as [r|].
  - destruct (validateReceipt r) eqn:Hv.
    + right. assert (H : forall r0, Some r = Some r0 -> validateReceipt r0 <> None)
        by (intros r0 [= <-]; congruence).
      split; [exact H | now apply processReceiptHandler_rejected].
    + left. destruct (processReceiptHandler_accepted indefinite r id st Hv)
        as (p & Hp & Hh). eauto 10.
  - right. split; [discriminate | reflexivity].
Qed.

Lemma processReceiptHandler_consistent indefinite body id st st' resp :
  consistent indefinite st ->
  processReceiptHandler indefinite body id st = Some (st', resp) ->
  consistent indefinite st'.
Proof.
  intros Hst H.
  destruct (processReceiptHandler_cases indefinite body id st)
    as [(r & p & -> & Hv & Hp & Hh)|[_ Hh]]; rewrite Hh in H; injection H as <- <-;
    [|exact Hst].
  intros k. cbn [receipts points].
  destruct (decide (id = k)) as [->|Hne].
  - rewrite !lookup_insert_eq. split; [exact Hv | now rewrite Hp].
  - rewrite !lookup_insert_ne by exact Hne. apply Hst.
Qed.

Lemma serve_consistent indefinite cs st :
  consistent indefinite st ->
  exists st' resps,
    serve indefinite cs st = Some (st', resps) /\
    consistent indefinite st' /\ length resps = length cs.
Proof.
  revert st. induction cs as [|c cs IH]; intros st Hst; cbn [serve].
  - now exists st, [].
  - assert (Hc : exists st1 resp, serveCall indefinite c st = Some (st1, resp) /\
                                  consistent indefinite st1).
    { destruct c as [body id|path]; cbn [serveCall]; [|eauto].
      destruct (processReceiptHandler_cases indefinite body id st)
        as [(r & p & _ & _ & _ & Hh)|[_ Hh]];
        eexists _, _; (split; [exact Hh|]);
        eapply processReceiptHandler_consistent; eauto. }
    destruct Hc as (st1 & resp & -> & Hst1).
    destruct (IH st1 Hst1) as (st' & resps & -> & Hst' & Hlen).
    exists st', (resp :: resps). cbn [length]. auto.
Qed.

Lemma emptyStore_consistent indefinite : consistent indefinite emptyStore.
Proof. intros k. cbn. now rewrite !lookup_empty. Qed.

(** X7: whatever requests the server has served one after the other
    since it started, none has panicked, each has got its response, and
    the store is consistent: under every identifier there is a receipt
    that the validator accepts together with the points the scorer
    gives that receipt, or there is neither. *)
Theorem X7_served_store_is_consistent (indefinite : float64 -> Z) (cs : list call) :
  exists st resps,
    serve indefinite cs emptyStore = Some (st, resps) /\
    length resps = length cs /\
    consistent indefinite st /\
    (forall k, paired st k).
Proof.
  destruct (serve_consistent indefinite cs emptyStore (emptyStore_consistent _))
    as (st & resps & Hs & Hc & Hl).
  exists st, resps. split; [exact Hs|]. split; [exact Hl|]. split; [exact Hc|].
  intros k. unfold paired. specialize (Hc k).
  destruct (receipts st !! k) as [r|].
  - destruct Hc as [_ ->]. destruct (calculatePoints_some indefinite r) as [p ->].
    split; eauto.
  - rewrite Hc. split; intros [x Hx]; discriminate.
Qed.

(** X8: a request to store a receipt whose body does not decode, or
    whose receipt fails any rule of the validator, changes nothing in
    the store and is answered with status 400 and the message of an
    invalid receipt; every other request to store is answered with its
    identifier and stores the receipt and its score under it, leaving
    the other identifiers as they were. *)
Theorem X8_store_request_outcomes
        (indefinite : float64 -> Z) (body : option Receipt) (id : string) (st : Store) :
  ((forall r, body = Some r -> validateReceipt r <> None) ->
   processReceiptHandler indefinite body id st = Some (st, invalidReply)) /\
  (forall r,
      body = Some r -> validateReceipt r = None ->
      exists st',
        processReceiptHandler indefinite body id st = Some (st', ResponseID id) /\
        receipts st' !! id = Some r /\
        points st' !! id = calculatePoints indefinite r /\
        (forall k, k <> id ->
                   receipts st' !! k = receipts st !! k /\
                   points st' !! k = points st !! k)).
Proof.
  split; [apply processReceiptHandler_rejected|].
  intros r -> Hv.
  destruct (processReceiptHandler_accepted indefinite r id st Hv) as (p & Hp & Hh).
  eexists. split; [exact Hh|]. cbn [receipts points].
  rewrite !lookup_insert_eq, Hp. repeat split; try reflexivity.
  - now rewrite lookup_insert_ne.
  - now rewrite lookup_insert_ne.
Qed.

Lemma X8_store_request_outcomes_witness :
  processReceiptHandler amd64 (Some (withTotal targetReceipt "12.5")) sampleID
    emptyStore
  = Some (emptyStore, invalidReply).
Proof.
  apply (proj1 (X8_store_request_outcomes amd64
                  (Some (withTotal targetReceipt "12.5")) sampleID emptyStore)).
  intros r [= <-]. discriminate.
Defined.

Lemma serve_receipts indefinite cs st st' resps k :
  serve indefinite cs st = Some (st', resps) ->
  receipts st' !! k
  = fold_left
      (fun found c =>
         match c with
         | Process (Some r) id =>
             if String.eqb id k && accepted r then Some r else found
         | _ => found
         end)
      cs (receipts st !! k).
Proof.
  revert st resps. induction cs as [|c cs IH]; intros st resps; cbn [serve fold_left].
  - now intros [= <- _].
  - destruct (serveCall indefinite c st) as [[st1 resp]|] eqn:Hc; [|discriminate].
    destruct (serve indefinite cs st1) as [[st2 resps']|] eqn:Hs; [|discriminate].
    intros [= <- _]. rewrite (IH st1 resps' Hs). f_equal.
    destruct c as [body id|path]; cbn [serveCall] in Hc; [|now injection Hc as <- _].
    destruct (processReceiptHandler_cases indefinite body id st)
      as [(r & p & -> & Hv & Hp & Hh)|[Hrej Hh]];
      rewrite Hh in Hc; injection Hc as <- _.
    + cbn [receipts]. unfold accepted. rewrite Hv, andb_true_r.
      destruct (String.eqb id k) eqn:E.
      * apply String.eqb_eq in E. subst k. apply lookup_insert_eq.
      * apply String.eqb_neq in E. now apply lookup_insert_ne.
    + destruct body as [r|]; [|reflexivity].
      unfold accepted. destruct (validateReceipt r) eqn:Hv.
      * now rewrite andb_false_r.
      * now destruct (Hrej r eq_refl).
Qed.

Lemma latestStored_none cs k found :
  (forall body id, In (Process body id) cs -> id <> k) ->
  fold_left
    (fun found c =>
       match c with
       | Process (Some r) id =>
           if String.eqb id k && accepted r then Some r else found
       | _ => found
       end)
    cs found = found.
Proof.
  revert found. induction cs as [|c cs IH]; intros found H; cbn [fold_left].
  - reflexivity.
  - rewrite IH by (intros body id Hin; apply (H body id); now right).
    destruct c as [[r|] id|path]; try reflexivity.
    assert (Hne : id <> k) by (apply (H (Some r) id); now left).
    apply String.eqb_neq in Hne. now rewrite Hne.
Qed.

(** X9: after any requests served one after the other since the start,
    a lookup is answered from the last valid receipt stored under the
    identifier in its path: with the points the scorer gives that
    receipt, or, when no receipt was stored under it, with status 404
    and the message of a missing receipt.  A path in which no
    identifier is found is looked up under the empty string, which
    misses when every identifier drawn is the string of a UUID. *)
Theorem X9_lookup_after_requests
        (indefinite : float64 -> Z) (cs : list call) (st : Store)
        (resps : list Response) (path : string) :
  serve indefinite cs emptyStore = Some (st, resps) ->
  getPointsHandler path st
  = match latestStored cs (extractUUID path) with
    | Some r =>
        match calculatePoints indefinite r with
        | Some p => ResponsePoints p
        | None => notFoundReply
        end
    | None => notFoundReply
    end /\
  ((forall body id, In (Process body id) cs -> id <> extractUUID path) ->
   getPointsHandler path st = notFoundReply) /\
  ((forall body id, In (Process body id) cs -> isUUIDString id = true) ->
   extractUUID path = ""%string ->
   getPointsHandler path st = notFoundReply).
Proof.
  intros Hs.
  assert (Hc : consistent indefinite st).
  { destruct (serve_consistent indefinite cs emptyStore (emptyStore_consistent _))
      as (st' & resps' & Hs' & Hc & _).
    rewrite Hs in Hs'. now injection Hs' as <- _. }
  assert (Hr := serve_receipts indefinite cs emptyStore st resps (extractUUID path) Hs).
  cbn [receipts emptyStore] in Hr. rewrite lookup_empty in Hr.
  fold (latestStored cs (extractUUID path)) in Hr.
  assert (H1 : getPointsHandler path st
               = match latestStored cs (extractUUID path) with
                 | Some r =>
                     match calculatePoints indefinite r with
                     | Some p => ResponsePoints p
                     | None => notFoundReply
                     end
                 | None => notFoundReply
                 end).
  { unfold getPointsHandler. specialize (Hc (extractUUID path)).
    rewrite Hr in Hc. destruct (latestStored cs (extractUUID path)) as [r|].
    - destruct Hc as [_ ->]. now destruct (calculatePoints indefinite r).
    - now rewrite Hc. }
  split; [exact H1|]. split.
  - intros Hne. rewrite H1. unfold latestStored.
    now rewrite latestStored_none.
  - intros Hids He. rewrite H1. unfold latestStored.
    rewrite latestStored_none; [reflexivity|].
    intros body id Hin E. rewrite He in E. subst id.
    now specialize (Hids body _ Hin).
Qed.

Lemma X9_lookup_after_requests_witness :
  getPointsHandler "/receipts/process"
    {| receipts := <[sampleID := targetReceipt]> ∅;
       points := <[sampleID := 28]> ∅ |}
  = notFoundReply.
Proof.
  refine (proj2 (proj2 (X9_lookup_after_requests amd64
            [Process (Some targetReceipt) sampleID] _ [ResponseID sampleID]
            "/receipts/process" _)) _ eq_refl).
  - cbn [serve serveCall]. unfold processReceiptHandler.
    change (validateReceipt targetReceipt) with (@None string).
    rewrite targetReceipt_points. reflexivity.
  - intros body id [[= <- <-]|[]]. reflexivity.
Defined.

(** ** Requests served at the same time *)

Lemma insert_filter_count {A} (f : A -> bool) (l : list A) i x y :
  l !! i = Some x ->
  (length (List.filter f (<[i := y]> l)) + (if f x then 1 else 0)
   = length (List.filter f l) + (if f y then 1 else 0))%nat.
Proof.
  revert i. induction l as [|a l IH]; intros i H; [discriminate|].
  destruct i as [|i].
  - injection H as ->. change (<[0%nat:=y]> (x :: l)) with (y :: l).
    cbn [List.filter]. destruct (f x), (f y); cbn [length]; lia.
  - change (<[S i:=y]> (a :: l)) with (a :: <[i:=y]> l).
    change ((a :: l) !! S i) with (l !! i) in H.
    specialize (IH i H). cbn [List.filter].
    destruct (f a); cbn [length]; lia.
Qed.


(** One step keeps the mutex held by exactly the requests inside a
    critical section, and takes one statement off what remains. *)
Lemma step_exclusion indefinite s s' :
  step indefinite s s' ->
  criticalCount s = (if mutex s then 1 else 0)%nat ->
  criticalCount s' = (if mutex s' then 1 else 0)%nat.
Proof.
  intros [s0 i r r' st' held' Hi Hst] Hinv. unfold criticalCount in *.
  cbn [requests mutex].
  pose proof (insert_filter_count inCritical (requests s0) i r r' Hi) as Hc.
  destruct r; cbn in Hst;
    repeat match type of Hst with
           | context [match ?x with _ => _ end] => destruct x eqn:?
           end;
    try discriminate; injection Hst as <- <- <-; cbn in Hc;
    destruct (mutex s0); try discriminate; lia.
Qed.


Lemma started_exclusion s : started s -> criticalCount s = (if mutex s then 1 else 0)%nat.
Proof.
  intros (-> & Hall & _). unfold criticalCount.
  induction Hall as [|r l Hr _ IH]; [reflexivity|].
  cbn. destruct r; try discriminate; exact IH.
Qed.

Lemma reachable_exclusion indefinite s0 s :
  started s0 -> reachable indefinite s0 s ->
  criticalCount s = (if mutex s then 1 else 0)%nat.
Proof.
  intros H0 Hr. apply started_exclusion in H0. unfold reachable in Hr.
  induction Hr as [|s1 s2 s3 Hstep _ IH]; [exact H0|].
  apply IH. eapply step_exclusion; eauto.
Qed.


Lemma step_halfPaired indefinite s s' :
  step indefinite s s' -> halfPaired s -> halfPaired s'.
Proof.
  intros [s0 i r r' st' held' Hi Hst] Hinv k.
  destruct (Hinv k) as (H1 & H2 & H3).
  assert (Hlt : (i < length (requests s0))%nat) by (eapply lookup_lt_Some, Hi).
  assert (Hkeep : forall j x, j <> i -> requests s0 !! j = Some x ->
                              <[i := r']> (requests s0) !! j = Some x)
    by (intros j x Hne Hj; rewrite list_lookup_insert_ne; auto).
  assert (Hnew : <[i := r']> (requests s0) !! i = Some r')
    by (now apply list_lookup_insert_eq).
  assert (Hold : forall j x, <[i := r']> (requests s0) !! j = Some x ->
                             (j = i /\ x = r') \/ (j <> i /\ requests s0 !! j = Some x)).
  { intros j x Hj. apply list_lookup_insert_Some in Hj as [(-> & -> & _)|[Hne Hj]]; auto. }
  cbn [store requests].
  destruct r as [rc id|rc id|rc id|id|id|id|id p|resp]; cbn in Hst.
  - (* line 171 *)
    destruct (calculatePoints indefinite rc) as [p|]; [|discriminate].
    injection Hst as <- <- <-. cbn [receipts points].
    destruct (decide (id = k)) as [->|Hne].
    + rewrite lookup_insert_eq. split; [eauto|]. split; [|eauto].
      intros _. right. exists i, (AtLine172 rc k). split; [exact Hnew|].
      exists rc. now left.
    + rewrite lookup_insert_ne by exact Hne. split; [exact H1|]. split.
      * intros Hp. destruct (H2 Hp) as [Hr|(j & x & Hj & Hx)]; [now left|].
        right. exists j, x. split; [|exact Hx]. apply Hkeep; [|exact Hj].
        intros ->. rewrite Hi in Hj. injection Hj as <-.
        destruct Hx as [rc' [Hx|Hx]]; discriminate.
      * intros j x Hj Hx. apply Hold in Hj as [[-> ->]|[Hnj Hj]].
        -- destruct Hx as [rc' [Hx|Hx]]; [|discriminate].
           injection Hx as _ ->. congruence.
        -- eapply H3; eauto.
  - (* line 172 *)
    destruct (mutex s0); [discriminate|]. injection Hst as <- <- <-.
    split; [exact H1|]. split.
    + intros Hp. destruct (H2 Hp) as [Hr|(j & x & Hj & Hx)]; [now left|].
      right. destruct (decide (j = i)) as [->|Hne].
      * rewrite Hi in Hj. injection Hj as <-.
        exists i, (AtLine173 rc id). split; [exact Hnew|].
        destruct Hx as [rc' [Hx|Hx]]; [|discriminate].
        injection Hx as -> ->. exists rc'. now right.
      * exists j, x. split; [now apply Hkeep | exact Hx].
    + intros j x Hj Hx. apply Hold in Hj as [[-> ->]|[Hnj Hj]].
      * destruct Hx as [rc' [Hx|Hx]]; [discriminate|].
        injection Hx as -> ->. apply (H3 i (AtLine172 rc' k) Hi).
        exists rc'. now left.
      * eapply H3; eauto.
  - (* line 173 *)
    injection Hst as <- <- <-. cbn [receipts points].
    destruct (decide (id = k)) as [->|Hne].
    + rewrite lookup_insert_eq.
      assert (Hp : is_Some (points (store s0) !! k))
        by (apply (H3 i (AtLine173 rc k) Hi); exists rc; now right).
      split; [auto|]. split; [eauto|].
      intros j x Hj Hx. exact Hp.
    + rewrite lookup_insert_ne by exact Hne. split; [exact H1|]. split.
      * intros Hp. destruct (H2 Hp) as [Hr|(j & x & Hj & Hx)]; [now left|].
        right. exists j, x. split; [|exact Hx]. apply Hkeep; [|exact Hj].
        intros ->. rewrite Hi in Hj. injection Hj as <-.
        destruct Hx as [rc' [Hx|Hx]]; [discriminate|].
        injection Hx as _ ->. congruence.
      * intros j x Hj Hx. apply Hold in Hj as [[-> ->]|[Hnj Hj]].
        -- destruct Hx as [rc' [Hx|Hx]]; discriminate.
        -- eapply H3; eauto.
  - (* line 174 *)
    injection Hst as <- <- <-. split; [exact H1|]. split.
    + intros Hp. destruct (H2 Hp) as [Hr|(j & x & Hj & Hx)]; [now left|].
      right. exists j, x. split; [|exact Hx]. apply Hkeep; [|exact Hj].
      intros ->. rewrite Hi in Hj. injection Hj as <-.
      destruct Hx as [rc' [Hx|Hx]]; discriminate.
    + intros j x Hj Hx. apply Hold in Hj as [[-> ->]|[Hnj Hj]].
      * destruct Hx as [rc' [Hx|Hx]]; discriminate.
      * eapply H3; eauto.
  - (* line 144 *)
    destruct (mutex s0); [discriminate|]. injection Hst as <- <- <-.
    split; [exact H1|]. split.
    + intros Hp. destruct (H2 Hp) as [Hr|(j & x & Hj & Hx)]; [now left|].
      right. exists j, x. split; [|exact Hx]. apply Hkeep; [|exact Hj].
      intros ->. rewrite Hi in Hj. injection Hj as <-.
      destruct Hx as [rc' [Hx|Hx]]; discriminate.
    + intros j x Hj Hx. apply Hold in Hj as [[-> ->]|[Hnj Hj]].
      * destruct Hx as [rc' [Hx|Hx]]; discriminate.
      * eapply H3; eauto.
  - (* line 145 *)
    injection Hst as <- <- <-. split; [exact H1|]. split.
    + intros Hp. destruct (H2 Hp) as [Hr|(j & x & Hj & Hx)]; [now left|].
      right. exists j, x. split; [|exact Hx]. apply Hkeep; [|exact Hj].
      intros ->. rewrite Hi in Hj. injection Hj as <-.
      destruct Hx as [rc' [Hx|Hx]]; discriminate.
    + intros j x Hj Hx. apply Hold in Hj as [[-> ->]|[Hnj Hj]].
      * destruct Hx as [rc' [Hx|Hx]]; discriminate.
      * eapply H3; eauto.
  - (* line 146 *)
    injection Hst as <- <- <-. split; [exact H1|]. split.
    + intros Hp. destruct (H2 Hp) as [Hr|(j & x & Hj & Hx)]; [now left|].
      right. exists j, x. split; [|exact Hx]. apply Hkeep; [|exact Hj].
      intros ->. rewrite Hi in Hj. injection Hj as <-.
      destruct Hx as [rc' [Hx|Hx]]; discriminate.
    + intros j x Hj Hx. apply Hold in Hj as [[-> ->]|[Hnj Hj]].
      * destruct Hx as [rc' [Hx|Hx]]; discriminate.
      * eapply H3; eauto.
  - discriminate.
Qed.

Lemma started_halfPaired s : started s -> halfPaired s.
Proof.
  intros (_ & Hall & Hp) k. split; [apply Hp|]. split.
  - intros H. left. now apply Hp.
  - intros i r Hi [rc [->| ->]];
      apply (proj1 (Forall_lookup _ _) Hall) in Hi; discriminate.
Qed.

Lemma reachable_halfPaired indefinite s0 s :
  started s0 -> reachable indefinite s0 s -> halfPaired s.
Proof.
  intros H0 Hr. apply started_halfPaired in H0. unfold reachable in Hr.
  induction Hr as [|s1 s2 s3 Hstep _ IH]; [exact H0|].
  apply IH. eapply step_halfPaired; eauto.
Qed.

Lemma quiescent_not_critical s : quiescent s -> criticalCount s = 0%nat.
Proof.
  unfold quiescent, criticalCount. induction 1 as [|r l Hr _ IH]; [reflexivity|].
  cbn. destruct r; try discriminate. exact IH.
Qed.

(** X10: while requests are served at the same time, from a start with
    a free mutex and paired maps, a receipt is never in the store
    without its points, and points are in the store without a receipt
    only while the request that stores them stands between line 171
    and line 173; once every request has its response the two maps
    have the same identifiers again. *)
Theorem X10_points_precede_receipt (indefinite : float64 -> Z) (s0 s : server) :
  started s0 ->
  reachable indefinite s0 s ->
  (forall k,
      (is_Some (receipts (store s) !! k) -> is_Some (points (store s) !! k)) /\
      (is_Some (points (store s) !! k) ->
       is_Some (receipts (store s) !! k) \/
       exists i r, requests s !! i = Some r /\ storing k r)) /\
  (quiescent s -> forall k, paired (store s) k).
Proof.
  intros H0 Hr. pose proof (reachable_halfPaired indefinite s0 s H0 Hr) as Hinv.
  split.
  - intros k. destruct (Hinv k) as (H1 & H2 & _). auto.
  - intros Hq k. destruct (Hinv k) as (H1 & H2 & _). split; [|exact H1].
    intros Hp. destruct (H2 Hp) as [Hrc|(i & r & Hi & rc & [->| ->])]; [exact Hrc| |];
      apply (proj1 (Forall_lookup _ _) Hq) in Hi; discriminate.
Qed.

Lemma X10_points_precede_receipt_witness :
  is_Some (receipts pointsOnly !! sampleID) \/
  exists i r,
    [AtLine172 targetReceipt sampleID; AtLine144 sampleID] !! i = Some r /\
    storing sampleID r.
Proof.
  refine (proj2 (proj1 (X10_points_precede_receipt amd64 (twoRequests sampleID)
                   {| store := pointsOnly; mutex := false;
                      requests := [AtLine172 targetReceipt sampleID;
                                   AtLine144 sampleID] |} _ _) sampleID) _).
  - split; [reflexivity|]. split; [repeat constructor|].
    intros k. unfold paired. cbn. rewrite !lookup_empty.
    split; intros [x Hx]; discriminate.
  - eapply rtc_l; [|apply rtc_refl].
    eapply (step_at amd64 _ _ 0); [reflexivity| |reflexivity].
    unfold statement. now rewrite targetReceipt_points.
  - exists 28. apply lookup_insert_eq.
Defined.

(** X11: the mutex is held exactly while one request is between its
    [Lock] and its [Unlock]: at every state the server reaches there is
    at most one request writing a receipt (lines 173-174) or reading
    points (lines 145-146), none when the mutex is free; and the mutex
    is free when every request has its response. *)
Theorem X11_mutual_exclusion (indefinite : float64 -> Z) (s0 s : server) :
  started s0 ->
  reachable indefinite s0 s ->
  criticalCount s = (if mutex s then 1 else 0)%nat /\
  (quiescent s -> mutex s = false).
Proof.
  intros H0 Hr. pose proof (reachable_exclusion indefinite s0 s H0 Hr) as Hc.
  split; [exact Hc|]. intros Hq. apply quiescent_not_critical in Hq.
  rewrite Hq in Hc. now destruct (mutex s).
Qed.

Lemma X11_mutual_exclusion_witness :
  criticalCount {| store := pointsOnly; mutex := true;
                   requests := [AtLine172 targetReceipt sampleID;
                                AtLine145 sampleID] |} = 1%nat.
Proof.
  refine (proj1 (X11_mutual_exclusion amd64 (twoRequests sampleID) _ _ _)).
  - split; [reflexivity|]. split; [repeat constructor|].
    intros k. unfold paired. cbn. rewrite !lookup_empty.
    split; intros [x Hx]; discriminate.
  - eapply rtc_l.
    { eapply (step_at amd64 _ _ 0); [reflexivity| |reflexivity].
      unfold statement. now rewrite targetReceipt_points. }
    eapply rtc_l; [eapply (step_at amd64 _ _ 1); reflexivity|].
    apply rtc_refl.
Defined.









(** ** Scores are not negative *)

Lemma toInt_fits indefinite x v :
  truncated x = Some v -> GoInt.in_range v -> Math.toInt indefinite x = v.
Proof.
  unfold truncated, Math.toInt, GoInt.in_range.
  destruct x as [s|s| |s m e]; try discriminate.
  - now intros [= <-].
  - intros [= <-] [H1 H2].
    apply Z.leb_le in H1, H2. now rewrite H1, H2.
Qed.

Lemma binary_round_aux_sign sx mx ex lx :
  match binary_round_aux prec emax sx mx ex lx with
  | S754_zero s | S754_infinity s | S754_finite s _ _ => s = sx
  | S754_nan => True
  end.
Proof.
  unfold binary_round_aux.
  destruct (shr_fexp prec emax mx ex lx) as [mrs' e'].
  destruct (shr_fexp prec emax _ e' loc_Exact) as [mrs'' e''].
  destruct (shr_m mrs''); auto. now destruct (e'' <=? emax - prec).
Qed.

Lemma nearest_notNegative n d : notNegative (nearest false n d).
Proof.
  unfold nearest. destruct n; cbn; auto.
  destruct (SFdiv_core_binary prec emax (Z.pos p) 0 (Z.pos d) 0) as [[q e] l].
  pose proof (binary_round_aux_sign false q e l) as H.
  destruct (binary_round_aux prec emax false q e l); cbn; auto.
Qed.

Lemma f0_2_finite : Math.f0_2 = S754_finite false 7205759403792794 (-55).
Proof. reflexivity. Qed.

Lemma mul_notNegative x : notNegative x -> notNegative (Math.mul x Math.f0_2).
Proof.
  rewrite f0_2_finite. unfold Math.mul, SFmul.
  destruct x as [s|s| |s m e]; cbn [notNegative]; auto.
  - intros ->. reflexivity.
  - intros ->. cbn [xorb].
    pose proof (binary_round_aux_sign false
                  (Z.pos (m * 7205759403792794)) (e + -55) loc_Exact) as H.
    destruct (binary_round_aux _ _ _ _ _ _); cbn; auto.
Qed.

Lemma Ceil_notNegative x : notNegative x -> notNegative (Math.Ceil x).
Proof.
  destruct x as [s|s| |s m e]; cbn [Math.Ceil notNegative]; auto.
  intros ->. destruct (0 <=? e) eqn:He; [reflexivity|].
  apply Z.leb_gt in He. cbn [cond_Zopp].
  assert (Hn : 0 < - (- Z.pos m / 2 ^ (- e))).
  { assert (- Z.pos m / 2 ^ (- e) < 0); [|lia].
    apply Z.div_lt_upper_bound; [apply Z.pow_pos_nonneg; lia | lia]. }
  destruct (- (- Z.pos m / 2 ^ (- e))) as [|n|n]; try lia.
  unfold binary_normalize, binary_round.
  destruct (shl_align n 0 _) as [mz ez].
  pose proof (binary_round_aux_sign false (Z.pos mz) ez loc_Exact) as H.
  destruct (binary_round_aux _ _ _ _ _ _); cbn; auto.
Qed.

Lemma truncated_notNegative x v :
  notNegative x -> truncated x = Some v -> 0 <= v.
Proof.
  destruct x as [s|s| |s m e]; cbn [truncated notNegative]; try discriminate.
  - now intros _ [= <-].
  - intros -> [= <-]. cbn [cond_Zopp]. destruct (0 <=? e) eqn:He.
    + apply Z.leb_le in He. apply Z.mul_nonneg_nonneg; [lia|].
      apply Z.pow_nonneg. lia.
    + apply Z.div_pos; [lia|]. apply Z.pow_pos_nonneg; lia.
Qed.

Lemma fst_rangeChecked v : fst (rangeChecked v) = v.
Proof. now destruct v. Qed.

Lemma validated_price_notNegative s :
  twoDecimals s -> notNegative (fst (ParseFloat s)).
Proof.
  intros (ds & d1 & d2 & -> & Hne & Hds & H1 & H2).
  rewrite ParseFloat_twoDecimals by assumption.
  rewrite fst_rangeChecked. apply nearest_notNegative.
Qed.

Lemma descriptionBonus_fits indefinite item :
  twoDecimals (Price item) ->
  fitsInt (Math.Ceil (Math.mul (fst (ParseFloat (Price item))) Math.f0_2)) ->
  0 <= descriptionBonus indefinite item /\
  forall indefinite',
    descriptionBonus indefinite' item = descriptionBonus indefinite item.
Proof.
  intros Ht (v & Hv & Hr). unfold descriptionBonus, priceBonus.
  destruct (_ =? 0); [|split; [lia | reflexivity]].
  rewrite (toInt_fits indefinite _ v Hv Hr). split.
  - eapply truncated_notNegative; [|exact Hv].
    apply Ceil_notNegative, mul_notNegative, validated_price_notNegative, Ht.
  - intros indefinite'. apply toInt_fits; assumption.
Qed.

Lemma itemPoints_fits indefinite items :
  Forall wellFormedItem items ->
  Forall (fun item =>
            fitsInt (Math.Ceil (Math.mul (fst (ParseFloat (Price item))) Math.f0_2)))
         items ->
  0 <= sumZ (map (descriptionBonus indefinite) items) /\
  forall indefinite',
    sumZ (map (descriptionBonus indefinite') items)
    = sumZ (map (descriptionBonus indefinite) items).
Proof.
  induction items as [|item items IH]; intros Hw Hf; cbn [map sumZ fold_right].
  - split; [lia | reflexivity].
  - apply Forall_cons_iff in Hw as [(_ & _ & Ht) Hw].
    apply Forall_cons_iff in Hf as [Hi Hf].
    destruct (IH Hw Hf) as [IH1 IH2].
    destruct (descriptionBonus_fits indefinite item Ht Hi) as [H1 H2].
    fold (sumZ (map (descriptionBonus indefinite) items)).
    split; [lia|]. intros indefinite'.
    fold (sumZ (map (descriptionBonus indefinite') items)).
    now rewrite H2, IH2.
Qed.

Lemma fixedPoints_nonneg r :
  0 <= retailerPoints r + roundDollarPoints r + quarterPoints r + pairPoints r
       + dayPoints r + timePoints r.
Proof.
  assert (0 <= retailerPoints r) by (unfold retailerPoints; lia).
  assert (0 <= roundDollarPoints r)
    by (unfold roundDollarPoints; destruct (Math.eq _ _); lia).
  assert (0 <= quarterPoints r)
    by (unfold quarterPoints; destruct (Math.eq _ _); lia).
  assert (0 <= pairPoints r).
  { unfold pairPoints.
    pose proof (Z.div_pos (Z.of_nat (length (Items r))) 2 ltac:(lia) ltac:(lia)).
    lia. }
  assert (0 <= dayPoints r).
  { unfold dayPoints. destruct (Strings.Split _ _) as [|a [|b [|c [|d l]]]]; try lia.
    destruct (Z.odd _); lia. }
  assert (0 <= timePoints r).
  { unfold timePoints. destruct (Strings.Split _ _) as [|a [|b [|c l]]]; try lia.
    cbv zeta. destruct (_ && _); lia. }
  lia.
Qed.

(** X13: a receipt that the validator accepts and whose price bonuses
    are conversions the language defines (each product [price * 0.2],
    rounded up, is a number an [int] holds) never scores below zero
    when the sum of its rules fits an [int], and scores the same on
    every platform: what a platform does with a conversion out of
    range plays no part. *)
Theorem X13_score_not_negative (indefinite : float64 -> Z) (r : Receipt) :
  validateReceipt r = None ->
  bonusesFit r ->
  0 <= rulePoints indefinite r /\
  (rulePoints indefinite r <= GoInt.maxInt ->
   exists p, calculatePoints indefinite r = Some p /\ 0 <= p) /\
  (forall indefinite',
      calculatePoints indefinite' r = calculatePoints indefinite r).
Proof.
  intros Hv Hf. apply validateReceipt_wellFormed in Hv as (_ & _ & _ & _ & _ & _ & Hw).
  destruct (itemPoints_fits indefinite (Items r) Hw Hf) as [H1 H2].
  pose proof (fixedPoints_nonneg r) as H0.
  assert (Hnn : 0 <= rulePoints indefinite r)
    by (unfold rulePoints, itemPoints; lia).
  split; [exact Hnn|]. split.
  - intros Hle. exists (rulePoints indefinite r). split; [|exact Hnn].
    rewrite calculatePoints_rulePoints. f_equal. apply wrap_id.
    unfold GoInt.in_range, GoInt.minInt. lia.
  - intros indefinite'. rewrite !calculatePoints_rulePoints.
    unfold rulePoints, itemPoints. now rewrite H2.
Qed.

Lemma X13_score_not_negative_witness :
  exists p, calculatePoints amd64 targetReceipt = Some p /\ 0 <= p.
Proof.
  refine (proj1 (proj2 (X13_score_not_negative amd64 targetReceipt eq_refl _)) _).
  - repeat constructor; eexists; (split; [reflexivity|]);
      vm_compute; split; discriminate.
  - vm_compute. discriminate.
Defined.
